(** * binary-dot: the event chat subsystem

    A shallow embedding of the chat service ([ChatService], the Prisma-backed
    room / participant / message operations) and of the WebSocket gateway
    ([ChatGateway], the connection registry and the socket event handlers),
    followed by the properties of the chat specification checked against
    them.

    Conventions of the embedding:
    - a table of the relational store is the list of its rows, in insertion
      order; the columns are those of the migrations;
    - a Prisma call is a function on the store; a call that writes returns
      the new store, and a call that throws returns the store as it was left;
    - what a call takes from its environment is an input, gathered in
      [Env]: the identifier the store generates ([cuid]), the clock of the
      store and the clock of the service, the outcome of each write (a write
      can be refused by an unavailable store) and the row a [findFirst]
      without [orderBy] meets first;
    - a number of the service is an integer, rounded to a double where the
      arithmetic of the service produces it;
    - a socket is a record, the handlers return the socket as they leave it
      and the list of the events they emit. *)

From Stdlib Require Import ZArith.
From stdpp Require Import base option list strings gmap sorting.

Local Open Scope Z_scope.

(** ** The relational store *)

Module Store.

(** [ParticipantStatus] of the events migration. *)
Inductive ParticipantStatus := JOINED | WAITLISTED | CANCELLED.

(** Table [users], the columns the chat reads. *)
Record User := mkUser {
  user_id : string;
  user_name : option string;
  user_avatar : option string
}.

(** Table [events], the columns the chat reads. *)
Record EventRow := mkEvent {
  event_id : string;
  event_title : string;
  event_image : option string;
  event_creatorId : string
}.

(** Table [event_participants]. *)
Record EventParticipant := mkEventParticipant {
  ep_userId : string;
  ep_eventId : string;
  ep_status : ParticipantStatus
}.

(** Table [chats]. *)
Record Chat := mkChat {
  chat_id : string;
  chat_eventId : string;
  chat_createdAt : Z;
  chat_updatedAt : Z
}.

(** Table [chat_participants]; a row is identified by its unique key
    (userId, chatId), the surrogate [id] column is never read. *)
Record ChatParticipant := mkChatParticipant {
  cp_userId : string;
  cp_chatId : string;
  cp_joinedAt : Z;
  cp_isActive : bool
}.

(** Table [chat_messages]. *)
Record ChatMessage := mkChatMessage {
  msg_id : string;
  msg_content : string;
  msg_image : option string;
  msg_isRead : bool;
  msg_createdAt : Z;
  msg_updatedAt : Z;
  msg_senderId : string;
  msg_receiverId : string;
  msg_chatId : string
}.

Record Store := mkStore {
  users : list User;
  events : list EventRow;
  eventParticipants : list EventParticipant;
  chats : list Chat;
  chatParticipants : list ChatParticipant;
  chatMessages : list ChatMessage
}.

#[global] Instance ParticipantStatus_eq_dec : EqDecision ParticipantStatus.
Proof. solve_decision. Defined.
#[global] Instance User_eq_dec : EqDecision User.
Proof. solve_decision. Defined.
#[global] Instance EventRow_eq_dec : EqDecision EventRow.
Proof. solve_decision. Defined.
#[global] Instance EventParticipant_eq_dec : EqDecision EventParticipant.
Proof. solve_decision. Defined.
#[global] Instance Chat_eq_dec : EqDecision Chat.
Proof. solve_decision. Defined.
#[global] Instance ChatParticipant_eq_dec : EqDecision ChatParticipant.
Proof. solve_decision. Defined.
#[global] Instance ChatMessage_eq_dec : EqDecision ChatMessage.
Proof. solve_decision. Defined.

Definition set_chats (s : Store) (cs : list Chat) : Store :=
  mkStore (users s) (events s) (eventParticipants s) cs
          (chatParticipants s) (chatMessages s).

Definition set_chatParticipants (s : Store) (ps : list ChatParticipant) : Store :=
  mkStore (users s) (events s) (eventParticipants s) (chats s)
          ps (chatMessages s).

Definition set_chatMessages (s : Store) (ms : list ChatMessage) : Store :=
  mkStore (users s) (events s) (eventParticipants s) (chats s)
          (chatParticipants s) ms.

(** What a call can throw: [Error msg] is the service's own
    [throw new Error(msg)], the others come from the Prisma client. *)
Inductive StoreFailure :=
  | UniqueViolation
  | ForeignKeyViolation
  | RecordNotFound
  | InvalidArgument
  | Unavailable.

Inductive Exn :=
  | Error (message : string)
  | Prisma (f : StoreFailure).

Inductive Result (A : Type) :=
  | Ok (a : A)
  | Err (e : Exn).
Arguments Ok {A} a.
Arguments Err {A} e.

Definition is_Ok {A} (r : Result A) : bool :=
  match r with Ok _ => true | Err _ => false end.

(** Inputs of one service call that come from its environment.  There are
    two clocks: the store's, which stamps the columns with a default or an
    [@updatedAt] when a row is written, and the service's, read by
    [new Date()]. *)
Record Env := mkEnv {
  env_now : Z;                    (* the store's clock, at the write *)
  env_newId : string;             (* the id the store generates for a new row *)
  env_writeFails : nat -> bool;   (* is the k-th write of the call refused *)
  env_date : Z;                   (* the service's clock, new Date() *)
  env_pick : nat                  (* which row a findFirst without orderBy meets first *)
}.

(** A service computation: reads and writes the store, may throw.  A throw
    keeps the writes done before it; [transaction] is what undoes them. *)
Definition Svc (A : Type) : Type := Store -> Result A * Store.

Definition ret {A} (a : A) : Svc A := fun s => (Ok a, s).
Definition throw {A} (e : Exn) : Svc A := fun s => (Err e, s).
Definition bind {A B} (m : Svc A) (k : A -> Svc B) : Svc B :=
  fun s => match m s with
           | (Ok a, s') => k a s'
           | (Err e, s') => (Err e, s')
           end.
Definition query {A} (f : Store -> A) : Svc A := fun s => (Ok (f s), s).

(** [prisma.$transaction(async tx => ...)]: the writes of the body are
    committed when it returns and rolled back when it throws. *)
Definition transaction {A} (body : Svc A) : Svc A :=
  fun s => match body s with
           | (Ok a, s') => (Ok a, s')
           | (Err e, _) => (Err e, s)
           end.

Declare Scope svc_scope.
Delimit Scope svc_scope with svc.
Notation "'let!' x ':=' m 'in' k" := (bind m (fun x => k))
  (at level 10, x name, m at level 100, k at level 200) : svc_scope.
Notation "'do!' m 'in' k" := (bind m (fun _ => k))
  (at level 10, m at level 100, k at level 200) : svc_scope.

(** *** Queries *)

(** [select: { id, name, avatar }] of the related user. *)
Definition user_select (s : Store) (userId : string) : option User :=
  head (filter (fun u => user_id u = userId) (users s)).

Definition event_findUnique (s : Store) (eventId : string) : option EventRow :=
  head (filter (fun e => event_id e = eventId) (events s)).

(** [eventParticipant.findFirst({ where: { eventId, userId: { in: ids } } })] *)
Definition eventParticipant_findFirst (s : Store) (eventId : string)
    (ids : list string) : option EventParticipant :=
  head (filter (fun ep => ep_eventId ep = eventId /\ ep_userId ep ∈ ids)
               (eventParticipants s)).

Definition participants_of (s : Store) (chatId : string) : list ChatParticipant :=
  filter (fun cp => cp_chatId cp = chatId) (chatParticipants s).

Definition messages_of (s : Store) (chatId : string) : list ChatMessage :=
  filter (fun m => msg_chatId m = chatId) (chatMessages s).

(** The [where] of the room lookup: the event, and
    [participants: { every: { userId: { in: ids } } }]. *)
Definition chat_matches (s : Store) (eventId : string) (ids : list string)
    (c : Chat) : Prop :=
  chat_eventId c = eventId /\
  Forall (fun cp => cp_userId cp ∈ ids) (participants_of s (chat_id c)).

#[global] Instance chat_matches_dec s e ids c : Decision (chat_matches s e ids c).
Proof. unfold chat_matches. apply _. Defined.

(** [chat.findFirst] has no [orderBy]: which of several matching rows comes
    first is up to the store, and is an input of the call ([pick]).  The
    other [findFirst] calls of the service are only tested for a result, so
    that for them the order does not matter. *)
Definition chat_findFirst (pick : nat) (s : Store) (eventId : string)
    (ids : list string) : option Chat :=
  let found := filter (chat_matches s eventId ids) (chats s) in
  found !! (pick `mod` length found)%nat.

(** [chatParticipant.findFirst({ where: { chatId, userId, isActive: true } })] *)
Definition chatParticipant_findFirst (s : Store) (chatId userId : string)
    : option ChatParticipant :=
  head (filter (fun cp => cp_chatId cp = chatId /\ cp_userId cp = userId /\
                          cp_isActive cp = true)
               (chatParticipants s)).

Definition chatMessage_findUnique (s : Store) (messageId : string)
    : option ChatMessage :=
  head (filter (fun m => msg_id m = messageId) (chatMessages s)).

Definition chat_findUnique (s : Store) (chatId : string) : option Chat :=
  head (filter (fun c => chat_id c = chatId) (chats s)).

(** [orderBy: { createdAt: 'desc' }] *)
Definition created_after (a b : ChatMessage) : Prop :=
  msg_createdAt b <= msg_createdAt a.

#[global] Instance created_after_dec a b : Decision (created_after a b).
Proof. unfold created_after. apply _. Defined.

Definition newest_first (ms : list ChatMessage) : list ChatMessage :=
  merge_sort created_after ms.

(** A JavaScript number with an integer value: the integer itself below
    2^53, beyond that the nearest double (ties to the even mantissa). *)
Definition js_number (z : Z) : Z :=
  let a := Z.abs z in
  if a <? 2 ^ 53 then z
  else
    let e := Z.log2 a - 52 in
    let q := a / 2 ^ e in
    let r := a mod 2 ^ e in
    let half := 2 ^ (e - 1) in
    let q' := if (half <? r) || ((r =? half) && Z.odd q) then q + 1 else q in
    Z.sgn z * (q' * 2 ^ e).

(** [(page - 1) * limit], computed on numbers. *)
Definition js_skip (page limit : Z) : Z :=
  js_number (js_number (page - 1) * limit).

(** The client takes [skip] and [take] as 64-bit signed integers. *)
Definition fits_int64 (z : Z) : bool :=
  (- 2 ^ 63 <=? z) && (z <? 2 ^ 63).

(** [skip] and [take] of [findMany].  A negative [take] counts from the end
    of the ordered list; a negative [skip], and a [skip] or [take] that is
    not a 64-bit integer, are refused by the client before the query runs
    (see [chatMessage_findMany]). *)
Definition paginate {A} (skip take_ : Z) (l : list A) : list A :=
  if 0 <=? take_
  then take (Z.to_nat take_) (drop (Z.to_nat skip) l)
  else reverse (take (Z.to_nat (- take_)) (drop (Z.to_nat skip) (reverse l))).

(** A message with [include: { sender, receiver }]. *)
Record MessageView := mkMessageView {
  mv_message : ChatMessage;
  mv_sender : option User;
  mv_receiver : option User
}.

Definition message_view (s : Store) (m : ChatMessage) : MessageView :=
  mkMessageView m (user_select s (msg_senderId m)) (user_select s (msg_receiverId m)).

(** [chatMessage.findMany({ where: { chatId }, include, orderBy, skip, take })] *)
Definition chatMessage_findMany (chatId : string) (skip take_ : Z)
    : Svc (list MessageView) :=
  fun s =>
    if (skip <? 0) || negb (fits_int64 skip) || negb (fits_int64 take_)
    then (Err (Prisma InvalidArgument), s)
    else (Ok (message_view s <$> paginate skip take_ (newest_first (messages_of s chatId))), s).

(** *** Writes *)

(** A participant row with [include: { user }]. *)
Record ParticipantView := mkParticipantView {
  pv_row : ChatParticipant;
  pv_user : option User
}.

Definition participant_view (s : Store) (cp : ChatParticipant) : ParticipantView :=
  mkParticipantView cp (user_select s (cp_userId cp)).

(** A chat with [include: { participants }] and, when it was just created,
    [include: { event }]. *)
Record ChatView := mkChatView {
  cv_chat : Chat;
  cv_participants : list ParticipantView;
  cv_event : option EventRow
}.

Definition chat_view (s : Store) (withEvent : bool) (c : Chat) : ChatView :=
  mkChatView c (participant_view s <$> participants_of s (chat_id c))
             (if withEvent then event_findUnique s (chat_eventId c) else None).

(** [chat.create({ data: { eventId, participants: { create: [...] } } })]:
    one nested write, all rows or none.  The constraints are those of the
    migration: primary key of [chats], foreign keys to [events] and [users],
    unique index (userId, chatId) of [chat_participants]. *)
Definition chat_create (env : Env) (k : nat) (eventId : string)
    (userIds : list string) : Svc Chat :=
  fun s =>
    let newId := env_newId env in
    let now := env_now env in
    if env_writeFails env k then (Err (Prisma Unavailable), s)
    else if decide (newId ∈ (chat_id <$> chats s))
    then (Err (Prisma UniqueViolation), s)
    else if decide (eventId ∈ (event_id <$> events s) /\
                    Forall (fun u => u ∈ (user_id <$> users s)) userIds)
    then
      if decide (NoDup userIds /\
                 Forall (fun cp => ¬ (cp_chatId cp = newId /\ cp_userId cp ∈ userIds))
                        (chatParticipants s))
      then
        let c := mkChat newId eventId now now in
        let ps := (fun u => mkChatParticipant u newId now true) <$> userIds in
        (Ok c, set_chatParticipants (set_chats s (chats s ++ [c]))
                                    (chatParticipants s ++ ps))
      else (Err (Prisma UniqueViolation), s)
    else (Err (Prisma ForeignKeyViolation), s).

(** [data: { isRead: true }]; the [updatedAt] column of the row follows
    every update. *)
Definition mark_read (now : Z) (m : ChatMessage) : ChatMessage :=
  mkChatMessage (msg_id m) (msg_content m) (msg_image m) true
                 (msg_createdAt m) now
                 (msg_senderId m) (msg_receiverId m) (msg_chatId m).

(** The [where] of the read-receipt update. *)
Definition unread_for (chatId userId : string) (m : ChatMessage) : Prop :=
  msg_chatId m = chatId /\ msg_receiverId m = userId /\ msg_isRead m = false.

#[global] Instance unread_for_dec c u m : Decision (unread_for c u m).
Proof. unfold unread_for. apply _. Defined.

(** [chatMessage.updateMany({ where: { chatId, receiverId, isRead: false },
    data: { isRead: true } })], returns the number of rows updated. *)
Definition chatMessage_updateMany_read (env : Env) (k : nat)
    (chatId userId : string) : Svc nat :=
  fun s =>
    if env_writeFails env k then (Err (Prisma Unavailable), s)
    else
      (Ok (length (filter (unread_for chatId userId) (chatMessages s))),
       set_chatMessages s
         ((fun m => if decide (unread_for chatId userId m)
                    then mark_read (env_now env) m else m) <$> chatMessages s)).

(** [chatMessage.create({ data: { chatId, senderId, receiverId, content,
    image }, include })]: [isRead] takes its default [false]. *)
Definition chatMessage_create (env : Env) (k : nat)
    (chatId senderId receiverId content : string) (image : option string)
    : Svc MessageView :=
  fun s =>
    let m := mkChatMessage (env_newId env) content image false
                           (env_now env) (env_now env)
                           senderId receiverId chatId in
    if env_writeFails env k then (Err (Prisma Unavailable), s)
    else if decide (env_newId env ∈ (msg_id <$> chatMessages s))
    then (Err (Prisma UniqueViolation), s)
    else if decide (chatId ∈ (chat_id <$> chats s) /\
                    senderId ∈ (user_id <$> users s) /\
                    receiverId ∈ (user_id <$> users s))
    then let s' := set_chatMessages s (chatMessages s ++ [m]) in
         (Ok (message_view s' m), s')
    else (Err (Prisma ForeignKeyViolation), s).

Definition touch (now : Z) (c : Chat) : Chat :=
  mkChat (chat_id c) (chat_eventId c) (chat_createdAt c) now.

(** [chat.update({ where: { id }, data: { updatedAt } })] *)
Definition chat_update (env : Env) (k : nat) (chatId : string) (updatedAt : Z)
    : Svc Chat :=
  fun s =>
    if env_writeFails env k then (Err (Prisma Unavailable), s)
    else match chat_findUnique s chatId with
         | None => (Err (Prisma RecordNotFound), s)
         | Some c =>
             (Ok (touch updatedAt c),
              set_chats s ((fun c' => if decide (chat_id c' = chatId)
                                      then touch updatedAt c' else c') <$> chats s))
         end.

(** [chatMessage.update({ where: { id }, data: { isRead: true } })] *)
Definition chatMessage_update_read (env : Env) (k : nat) (messageId : string)
    : Svc ChatMessage :=
  fun s =>
    if env_writeFails env k then (Err (Prisma Unavailable), s)
    else match chatMessage_findUnique s messageId with
         | None => (Err (Prisma RecordNotFound), s)
         | Some m =>
             (Ok (mark_read (env_now env) m),
              set_chatMessages s
                ((fun m' => if decide (msg_id m' = messageId)
                            then mark_read (env_now env) m' else m')
                   <$> chatMessages s))
         end.

End Store.

(** ** The chat service *)

Module ChatService.
Import Store.
Local Open Scope svc_scope.

(** *** getChatList *)

(** A participation joined with its chat (the [include: { chat }]). *)
Definition chat_recent (x y : ChatParticipant * Chat) : Prop :=
  chat_updatedAt (snd y) <= chat_updatedAt (snd x).

#[global] Instance chat_recent_dec x y : Decision (chat_recent x y).
Proof. unfold chat_recent. apply _. Defined.

Record ChatListEntry := mkChatListEntry {
  cl_chatId : string;
  cl_event : option EventRow;
  cl_eventCreator : option User;
  cl_participants : list ParticipantView;
  cl_lastMessage : option MessageView;
  cl_unreadCount : nat;
  cl_joinedAt : Z
}.

(** [_count: { select: { messages: { where: { receiverId, isRead: false } } } }] *)
Definition unreadCount (s : Store) (chatId userId : string) : nat :=
  length (filter (fun m => msg_receiverId m = userId /\ msg_isRead m = false)
                 (messages_of s chatId)).

Definition getChatList (userId : string) (s : Store) : list ChatListEntry :=
  let chatParticipants :=
    filter (fun cp => cp_userId cp = userId /\ cp_isActive cp = true)
           (chatParticipants s) in
  let joined :=
    omap (fun cp => (fun c => (cp, c)) <$> chat_findUnique s (cp_chatId cp))
         chatParticipants in
  (fun '(cp, chat) =>
     mkChatListEntry
       (chat_id chat)
       (event_findUnique s (chat_eventId chat))
       (ev ← event_findUnique s (chat_eventId chat);
        user_select s (event_creatorId ev))
       (participant_view s <$>
          filter (fun p => cp_userId p ≠ userId /\ cp_isActive p = true)
                 (participants_of s (chat_id chat)))
       (message_view s <$> head (newest_first (messages_of s (chat_id chat))))
       (unreadCount s (chat_id chat) userId)
       (cp_joinedAt cp))
    <$> merge_sort chat_recent joined.

(** *** getOrCreateChat *)

(** The part of [getOrCreateChat] before the [chat.create]: the event, the
    authorization check and the lookup of an existing room.  [Some] is the
    room to return, [None] means that a room is to be created.  The service
    function is [getOrCreateChat] below; the two parts are separate
    definitions because other calls can run between them (every Prisma call
    is awaited). *)
Definition getOrCreateChat_find (env : Env) (eventId participantId hostId : string)
    : Svc (option ChatView) :=
  let! event := query (fun s => event_findUnique s eventId) in
  match event with
  | None => throw (Error "Event not found")
  | Some event =>
      let isHost :=
        bool_decide (event_creatorId event = participantId) ||
        bool_decide (event_creatorId event = hostId) in
      let! isParticipant :=
        query (fun s => eventParticipant_findFirst s eventId [participantId; hostId]) in
      if negb isHost && negb (bool_decide (is_Some isParticipant))
      then throw (Error "User not authorized for this event")
      else
        let! existingChat :=
          query (fun s => chat_view s false <$>
                          chat_findFirst (env_pick env) s eventId
                                         [participantId; hostId]) in
        match existingChat with
        | Some existingChat =>
            if decide (length (cv_participants existingChat) = 2%nat)
            then ret (Some existingChat)
            else ret None
        | None => ret None
        end
  end.

Definition getOrCreateChat_create (env : Env) (eventId participantId hostId : string)
    : Svc ChatView :=
  let! newChat := chat_create env 0 eventId [participantId; hostId] in
  query (fun s => chat_view s true newChat).

Definition getOrCreateChat (env : Env) (eventId participantId hostId : string)
    : Svc ChatView :=
  let! found := getOrCreateChat_find env eventId participantId hostId in
  match found with
  | Some existingChat => ret existingChat
  | None => getOrCreateChat_create env eventId participantId hostId
  end.

(** *** getChatMessages *)

Record MessagePage := mkMessagePage {
  page_messages : list MessageView;
  page_hasMore : bool;
  page_page : Z
}.

Definition getChatMessages (env : Env) (chatId userId : string) (page limit : Z)
    : Svc MessagePage :=
  let! participant := query (fun s => chatParticipant_findFirst s chatId userId) in
  match participant with
  | None => throw (Error "User not authorized for this chat")
  | Some _ =>
      let skip := js_skip page limit in
      let! messages := chatMessage_findMany chatId skip limit in
      do! chatMessage_updateMany_read env 0 chatId userId in
      ret (mkMessagePage (reverse messages)
                         (bool_decide (Z.of_nat (length messages) = limit))
                         page)
  end.

(** *** sendMessage *)

Definition sendMessage (env : Env) (chatId senderId receiverId content : string)
    (image : option string) : Svc MessageView :=
  let! senderParticipant :=
    query (fun s => chatParticipant_findFirst s chatId senderId) in
  match senderParticipant with
  | None => throw (Error "Sender not authorized for this chat")
  | Some _ =>
      let! receiverParticipant :=
        query (fun s => chatParticipant_findFirst s chatId receiverId) in
      match receiverParticipant with
      | None => throw (Error "Receiver not found in this chat")
      | Some _ =>
          transaction
            (let! newMessage :=
               chatMessage_create env 0 chatId senderId receiverId content image in
             do! chat_update env 1 chatId (env_date env) in
             ret newMessage)
      end
  end.

(** *** markMessageAsRead *)

Definition markMessageAsRead (env : Env) (messageId userId : string)
    : Svc ChatMessage :=
  let! message := query (fun s => chatMessage_findUnique s messageId) in
  match message with
  | None => throw (Error "Message not found")
  | Some message =>
      if negb (bool_decide (msg_receiverId message = userId))
      then throw (Error "Not authorized to mark this message as read")
      else chatMessage_update_read env 0 messageId
  end.

End ChatService.

(** ** The WebSocket gateway *)

Module ChatGateway.
Import Store ChatService.

(** [client.handshake]: the fields the gateway reads. *)
Record Handshake := mkHandshake {
  auth_token : option string;
  auth_userId : option string;
  headers_authorization : option string
}.

(** [AuthenticatedSocket]: the socket id, the handshake, the [userId] the
    gateway attaches, the rooms the socket has joined, and whether the
    transport is open. *)
Record Socket := mkSocket {
  sock_id : string;
  handshake : Handshake;
  userId : option string;
  rooms : gset string;
  connected : bool
}.

(** The gateway's own state: [connectedUsers], userId -> socketId. *)
Record Gateway := mkGateway {
  connectedUsers : gmap string string
}.

(** JavaScript truthiness of a string-or-undefined value, and [a || b]. *)
Definition truthy (v : option string) : bool :=
  match v with
  | Some x => negb (bool_decide (x = ""))
  | None => false
  end.

Definition js_or (a b : option string) : option string :=
  if truthy a then a else b.

Inductive Payload :=
  | ErrorPayload (message : string)
  | UserPayload (userId : string)
  | ChatPayload (chatId : string)
  | NewMessagePayload (chatId : string) (message : MessageView)
  | NotificationPayload (chatId senderId : string) (senderName : option string)
                        (content : string)
  | MessageIdPayload (messageId : string)
  | TypingPayload (chatId userId : string).

(** [client.emit], [server.to(room).emit], [client.broadcast.emit]. *)
Inductive Target :=
  | ToClient (socketId : string)
  | ToRoom (room : string)
  | BroadcastFrom (socketId : string).

Record Emit := mkEmit {
  em_target : Target;
  em_event : string;
  em_payload : Payload
}.

(** Which open sockets an emitted event is delivered to. *)
Definition delivered_to (c : Socket) (e : Emit) : Prop :=
  connected c = true /\
  match em_target e with
  | ToClient i => sock_id c = i
  | ToRoom r => r ∈ rooms c
  | BroadcastFrom i => sock_id c ≠ i
  end.

#[global] Instance delivered_to_dec c e : Decision (delivered_to c e).
Proof. unfold delivered_to. destruct (em_target e); apply _. Defined.

Definition set_userId (c : Socket) (u : option string) : Socket :=
  mkSocket (sock_id c) (handshake c) u (rooms c) (connected c).

Definition join (c : Socket) (room : string) : Socket :=
  mkSocket (sock_id c) (handshake c) (userId c) ({[room]} ∪ rooms c) (connected c).

Definition leave (c : Socket) (room : string) : Socket :=
  mkSocket (sock_id c) (handshake c) (userId c) (rooms c ∖ {[room]}) (connected c).

(** [client.disconnect()]: the transport is closed and the rooms are left. *)
Definition disconnect (c : Socket) : Socket :=
  mkSocket (sock_id c) (handshake c) (userId c) ∅ false.

Definition user_room (userId : string) : string := "user_" +:+ userId.
Definition chat_room (chatId : string) : string := "chat_" +:+ chatId.

Definition handleConnection (g : Gateway) (client : Socket)
    : Gateway * Socket * list Emit :=
  let token := js_or (auth_token (handshake client))
                     (headers_authorization (handshake client)) in
  if negb (truthy token) then (g, disconnect client, [])
  else
    match auth_userId (handshake client) with
    | Some uid =>
        if negb (truthy (Some uid)) then (g, disconnect client, [])
        else
          let client := set_userId client (Some uid) in
          let g := mkGateway (<[uid := sock_id client]> (connectedUsers g)) in
          let client := join client (user_room uid) in
          (g, client,
           [mkEmit (BroadcastFrom (sock_id client)) "userOnline" (UserPayload uid)])
    | None => (g, disconnect client, [])
    end.

Definition handleDisconnect (g : Gateway) (client : Socket)
    : Gateway * list Emit :=
  match userId client with
  | Some uid =>
      if truthy (Some uid)
      then (mkGateway (delete uid (connectedUsers g)),
            [mkEmit (BroadcastFrom (sock_id client)) "userOffline" (UserPayload uid)])
      else (g, [])
  | None => (g, [])
  end.

Definition emit_error (client : Socket) (message : string) : Emit :=
  mkEmit (ToClient (sock_id client)) "error" (ErrorPayload message).

Definition handleJoinChat (client : Socket) (chatId : string)
    : Socket * list Emit :=
  if negb (truthy (userId client))
  then (client, [emit_error client "Not authenticated"])
  else
    (* TODO: Verify user is participant in this chat
       For now, just join the room *)
    (join client (chat_room chatId),
     [mkEmit (ToClient (sock_id client)) "joinedChat" (ChatPayload chatId)]).

Definition handleLeaveChat (client : Socket) (chatId : string)
    : Socket * list Emit :=
  (leave client (chat_room chatId),
   [mkEmit (ToClient (sock_id client)) "leftChat" (ChatPayload chatId)]).

(** [content.length > 50 ? content.substring(0, 50) + '...' : content].
    The characters of a string of the embedding stand for the UTF-16 code
    units of the JavaScript string, which is what [length] counts and
    [substring] cuts. *)
Definition preview (content : string) : string :=
  if decide (50 < String.length content)%nat
  then String.substring 0 50 content +:+ "..."
  else content.

Definition handleSendMessage (env : Env) (g : Gateway) (client : Socket)
    (chatId receiverId content : string) (image : option string)
    (s : Store) : Store * list Emit :=
  match userId client with
  | Some uid =>
      if negb (truthy (Some uid))
      then (s, [emit_error client "Not authenticated"])
      else
        match sendMessage env chatId uid receiverId content image s with
        | (Ok message, s') =>
            let newMessage :=
              mkEmit (ToRoom (chat_room chatId)) "newMessage"
                     (NewMessagePayload chatId message) in
            let receiverSocketId := connectedUsers g !! receiverId in
            if truthy receiverSocketId
            then
              match mv_sender message with
              | Some sender =>
                  (s', [newMessage;
                        mkEmit (ToRoom (user_room receiverId)) "messageNotification"
                               (NotificationPayload chatId uid (user_name sender)
                                                    (preview content))])
              | None =>
                  (* reading [message.sender.name] throws, the handler catches *)
                  (s', [newMessage; emit_error client "Failed to send message"])
              end
            else (s', [newMessage])
        | (Err _, s') => (s', [emit_error client "Failed to send message"])
        end
  | None => (s, [emit_error client "Not authenticated"])
  end.

Definition handleMarkAsRead (env : Env) (client : Socket) (messageId : string)
    (s : Store) : Store * list Emit :=
  match userId client with
  | Some uid =>
      if negb (truthy (Some uid))
      then (s, [emit_error client "Not authenticated"])
      else
        match markMessageAsRead env messageId uid s with
        | (Ok _, s') =>
            (s', [mkEmit (ToClient (sock_id client)) "messageRead"
                         (MessageIdPayload messageId)])
        | (Err _, s') => (s', [emit_error client "Failed to mark message as read"])
        end
  | None => (s, [emit_error client "Not authenticated"])
  end.

(** [typing] and [stopTyping]: forwarded to the receiver's personal room
    when the receiver is registered. *)
Definition handleTyping (g : Gateway) (client : Socket)
    (chatId receiverId : string) : list Emit :=
  if negb (truthy (userId client)) then []
  else
    match userId client with
    | Some uid =>
        if truthy (connectedUsers g !! receiverId)
        then [mkEmit (ToRoom (user_room receiverId)) "userTyping"
                     (TypingPayload chatId uid)]
        else []
    | None => []
    end.

Definition handleStopTyping (g : Gateway) (client : Socket)
    (chatId receiverId : string) : list Emit :=
  if negb (truthy (userId client)) then []
  else
    match userId client with
    | Some uid =>
        if truthy (connectedUsers g !! receiverId)
        then [mkEmit (ToRoom (user_room receiverId)) "userStoppedTyping"
                     (TypingPayload chatId uid)]
        else []
    | None => []
    end.

Definition isUserOnline (g : Gateway) (userId : string) : bool :=
  bool_decide (is_Some (connectedUsers g !! userId)).

Definition getOnlineUsers (g : Gateway) : list string :=
  elements (dom (connectedUsers g)).

End ChatGateway.

Import Store ChatService ChatGateway.

(** ** Vocabulary of the properties *)

(** The user has an active participant row in the chat. *)
Definition is_active_participant (s : Store) (chatId userId : string) : Prop :=
  Exists (fun cp => cp_chatId cp = chatId /\ cp_userId cp = userId /\
                    cp_isActive cp = true)
         (chatParticipants s).

(** The user created the event. *)
Definition is_host (s : Store) (eventId userId : string) : Prop :=
  match event_findUnique s eventId with
  | Some ev => event_creatorId ev = userId
  | None => False
  end.

(** The user has a participant row for the event, whatever its status. *)
Definition has_participant_row (s : Store) (eventId userId : string) : Prop :=
  Exists (fun ep => ep_eventId ep = eventId /\ ep_userId ep = userId)
         (eventParticipants s).

(** The user is an accepted participant of the event. *)
Definition is_accepted_participant (s : Store) (eventId userId : string) : Prop :=
  Exists (fun ep => ep_eventId ep = eventId /\ ep_userId ep = userId /\
                    ep_status ep = JOINED)
         (eventParticipants s).

(** Authorized for the event: its host, or an accepted participant. *)
Definition authorized_for_event (s : Store) (eventId userId : string) : Prop :=
  is_host s eventId userId \/ is_accepted_participant s eventId userId.

(** Authorized for the event a chat belongs to. *)
Definition authorized_for_chat (s : Store) (chatId userId : string) : Prop :=
  Exists (fun c => chat_id c = chatId /\ authorized_for_event s (chat_eventId c) userId)
         (chats s).

#[global] Instance is_active_participant_dec s c u :
  Decision (is_active_participant s c u).
Proof. unfold is_active_participant. apply _. Defined.
#[global] Instance is_host_dec s e u : Decision (is_host s e u).
Proof. unfold is_host. destruct (event_findUnique s e); apply _. Defined.
#[global] Instance has_participant_row_dec s e u :
  Decision (has_participant_row s e u).
Proof. unfold has_participant_row. apply _. Defined.
#[global] Instance is_accepted_participant_dec s e u :
  Decision (is_accepted_participant s e u).
Proof. unfold is_accepted_participant. apply _. Defined.
#[global] Instance authorized_for_event_dec s e u :
  Decision (authorized_for_event s e u).
Proof. unfold authorized_for_event. apply _. Defined.
#[global] Instance authorized_for_chat_dec s c u :
  Decision (authorized_for_chat s c u).
Proof. unfold authorized_for_chat. apply _. Defined.

(** The rooms of an event whose participants are all among the two users. *)
Definition rooms_for (s : Store) (eventId a b : string) : list Chat :=
  filter (chat_matches s eventId [a; b]) (chats s).

(** The constraints of the migration on the chat tables (primary key of
    [chats], unique index and foreign key of [chat_participants]), and the
    shape [getOrCreateChat] gives a room: two participant rows. *)
Record store_wf (s : Store) : Prop := mkStoreWf {
  wf_chat_ids : NoDup (chat_id <$> chats s);
  wf_participant_fk :
    Forall (fun cp => cp_chatId cp ∈ (chat_id <$> chats s)) (chatParticipants s);
  wf_two_party :
    Forall (fun chatId => length (participants_of s chatId) = 2%nat)
           (chat_id <$> chats s)
}.

(** At most one room for an event and a pair of distinct users. *)
Definition pair_unique (s : Store) : Prop :=
  forall e a b, a ≠ b -> (length (rooms_for s e a b) <= 1)%nat.

(** A call of the service that can write, with its arguments. *)
Inductive Call :=
  | GetOrCreateChat (eventId participantId hostId : string)
  | GetChatMessages (chatId userId : string) (page limit : Z)
  | SendMessage (chatId senderId receiverId content : string) (image : option string)
  | MarkMessageAsRead (messageId userId : string).

(** The store a call leaves. *)
Definition run_call (env : Env) (c : Call) (s : Store) : Store :=
  match c with
  | GetOrCreateChat e p h => snd (getOrCreateChat env e p h s)
  | GetChatMessages c u page limit => snd (getChatMessages env c u page limit s)
  | SendMessage c a b content image => snd (sendMessage env c a b content image s)
  | MarkMessageAsRead m u => snd (markMessageAsRead env m u s)
  end.

(** Calls run one after the other. *)
Fixpoint run_calls (cs : list (Env * Call)) (s : Store) : Store :=
  match cs with
  | [] => s
  | (env, c) :: cs => run_calls cs (run_call env c s)
  end.

(** The stores the service reaches from one without rooms. *)
Inductive reachable : Store -> Prop :=
  | reachable_init s :
      chats s = [] -> chatParticipants s = [] -> reachable s
  | reachable_step s env c :
      reachable s -> reachable (run_call env c s).

(** The row-wise effect of [chat.update] on the chat table. *)
Definition touch_chat (chatId : string) (now : Z) (c : Chat) : Chat :=
  if decide (chat_id c = chatId) then touch now c else c.

(** The row-wise effect of [chatMessage.update] on the message table. *)
Definition mark_message (messageId : string) (now : Z) (m : ChatMessage)
    : ChatMessage :=
  if decide (msg_id m = messageId) then mark_read now m else m.

(** The room [getOrCreateChat] returns when it does not create one. *)
Definition existing_room (pick : nat) (s : Store) (eventId a b : string)
    : option ChatView :=
  match chat_findFirst pick s eventId [a; b] with
  | Some c =>
      if decide (length (participants_of s (chat_id c)) = 2%nat)
      then Some (chat_view s false c) else None
  | None => None
  end.

(** What the validation of [getOrCreateChat] accepts. *)
Definition some_party_known (s : Store) (eventId a b : string) : Prop :=
  is_host s eventId a \/ is_host s eventId b \/
  has_participant_row s eventId a \/ has_participant_row s eventId b.

#[global] Instance some_party_known_dec s e a b :
  Decision (some_party_known s e a b).
Proof. unfold some_party_known. apply _. Defined.

(** The row-wise effect of the read-receipt update of [getChatMessages]. *)
Definition mark_unread (chatId userId : string) (now : Z) (m : ChatMessage)
    : ChatMessage :=
  if decide (unread_for chatId userId m) then mark_read now m else m.

(** [m'] is the row [m] at a later time: the same message, and read if [m]
    was read. *)
Definition read_le (m m' : ChatMessage) : Prop :=
  msg_id m' = msg_id m /\ msg_chatId m' = msg_chatId m /\
  msg_senderId m' = msg_senderId m /\ msg_receiverId m' = msg_receiverId m /\
  msg_content m' = msg_content m /\ msg_image m' = msg_image m /\
  msg_createdAt m' = msg_createdAt m /\
  (msg_isRead m = true -> msg_isRead m' = true).

(** Every row of [ms] is still there in [ms'], at its place, and read if
    it was. *)
Definition read_monotone (ms ms' : list ChatMessage) : Prop :=
  forall i m, ms !! i = Some m -> exists m', ms' !! i = Some m' /\ read_le m m'.

(** The store after [getOrCreateChat] has created a room. *)
Definition with_room (s : Store) (env : Env) (e a b : string) : Store :=
  set_chatParticipants
    (set_chats s (chats s ++ [mkChat (env_newId env) e (env_now env) (env_now env)]))
    (chatParticipants s ++
     [mkChatParticipant a (env_newId env) (env_now env) true;
      mkChatParticipant b (env_newId env) (env_now env) true]).

(** The paging the store's client accepts: a [skip] that is not negative,
    and a [skip] and a [take] that are 64-bit integers. *)
Definition paging_accepted (page limit : Z) : Prop :=
  0 <= js_skip page limit /\
  fits_int64 (js_skip page limit) = true /\ fits_int64 limit = true.

#[global] Instance paging_accepted_dec page limit :
  Decision (paging_accepted page limit).
Proof. unfold paging_accepted. apply _. Defined.

(** What makes the two writes of [sendMessage] go through: the store takes
    them, the generated id is new, and the rows the message refers to exist
    (the foreign keys of [chat_messages]). *)
Definition writes_accepted (env : Env) (chatId senderId receiverId : string)
    (s : Store) : Prop :=
  env_writeFails env 0%nat = false /\ env_writeFails env 1%nat = false /\
  (env_newId env ∉ (msg_id <$> chatMessages s)) /\
  chatId ∈ (chat_id <$> chats s) /\
  senderId ∈ (user_id <$> users s) /\ receiverId ∈ (user_id <$> users s).

(** Every room of a pair of distinct users belongs to an event that exists
    and that knows one of the two, which is what the validation of
    [getOrCreateChat] asked for when the room was created. *)
Definition rooms_validated (s : Store) : Prop :=
  forall e a b, a ≠ b -> rooms_for s e a b ≠ [] ->
    is_Some (event_findUnique s e) /\ some_party_known s e a b.

(** What makes the [chat.create] of a room for two users go through: the
    store takes the write, the generated id is new, and the two users exist
    (the foreign key of [chat_participants]). *)
Definition create_accepted (env : Env) (a b : string) (s : Store) : Prop :=
  env_writeFails env 0%nat = false /\
  (env_newId env ∉ (chat_id <$> chats s)) /\
  a ∈ (user_id <$> users s) /\ b ∈ (user_id <$> users s).

(** *** A small world to run the service in *)

Module Scenario.

Definition alice : User := mkUser "alice" (Some "Alice") None.
Definition bob : User := mkUser "bob" (Some "Bob") None.
Definition mallory : User := mkUser "mallory" None None.

(** Alice hosts the event, Bob has joined it, Mallory has nothing to do
    with it. *)
Definition s0 : Store :=
  mkStore [alice; bob; mallory]
          [mkEvent "ev1" "Launch" None "alice"]
          [mkEventParticipant "bob" "ev1" JOINED]
          [] [] [].

Definition env (now : Z) (newId : string) : Env :=
  mkEnv now newId (fun _ => false) (now + 1) 0.

(** The room of Alice and Bob. *)
Definition s1 : Store := snd (getOrCreateChat (env 1 "c1") "ev1" "bob" "alice" s0).

(** Bob has sent "hi" to Alice. *)
Definition s2 : Store := snd (sendMessage (env 5 "m1") "c1" "bob" "alice" "hi" None s1).

(** Bob has sent a second message. *)
Definition s3 : Store := snd (sendMessage (env 6 "m2") "c1" "bob" "alice" "there?" None s2).

Definition g0 : Gateway := mkGateway ∅.

(** An open socket that presents a token and a user id. *)
Definition socket (socketId uid : string) : Socket :=
  mkSocket socketId (mkHandshake (Some "token") (Some uid) None) None ∅ true.

(** The same socket once the gateway has accepted it. *)
Definition accepted (socketId uid : string) : Socket :=
  snd (fst (handleConnection g0 (socket socketId uid))).

End Scenario.

(** ** Properties *)

(** *** Helpers *)

Lemma head_filter_None {A} (P : A -> Prop) `{!forall x, Decision (P x)} (l : list A) :
  head (filter P l) = None <-> ¬ Exists P l.
Proof.
  rewrite head_None. split.
  - intros Hnil Hex. apply Exists_exists in Hex as (x & Hx & HP).
    eapply filter_nil_not_elem_of; eauto.
  - intros Hno. destruct (filter P l) as [|x l'] eqn:E; [done|].
    exfalso. apply Hno, Exists_exists. exists x.
    assert (x ∈ filter P l) as Hin by (rewrite E; left).
    apply list_elem_of_filter in Hin. tauto.
Qed.

Lemma head_filter_Some_inv {A} (P : A -> Prop) `{!forall x, Decision (P x)}
    (l : list A) (x : A) :
  head (filter P l) = Some x -> P x /\ x ∈ l.
Proof.
  intros Hhd. apply head_Some_elem_of in Hhd. by apply list_elem_of_filter in Hhd.
Qed.

Lemma chatParticipant_findFirst_None s chatId userId :
  chatParticipant_findFirst s chatId userId = None <->
  ¬ is_active_participant s chatId userId.
Proof. apply head_filter_None. Qed.

Lemma chatParticipant_findFirst_Some s chatId userId :
  is_active_participant s chatId userId ->
  exists cp, chatParticipant_findFirst s chatId userId = Some cp.
Proof.
  intros H. destruct (chatParticipant_findFirst s chatId userId) eqn:E; [eauto|].
  by apply chatParticipant_findFirst_None in E.
Qed.

(** Settle a closed decidable proposition by evaluation. *)
Ltac decide_false :=
  match goal with
  | |- ¬ ?P => apply (proj1 (bool_decide_eq_false P)); vm_compute; reflexivity
  end.
Ltac decide_true :=
  match goal with
  | |- ?P => apply (proj1 (bool_decide_eq_true P)); vm_compute; reflexivity
  end.

(** Unfolds the plumbing of a service computation. *)
Ltac svc_unfold :=
  unfold bind, ret, throw, query, transaction in *; simpl in *.

(** *** sendMessage: authorization gate *)

(** C2. A [sendMessage] whose sender or receiver is not an active
    participant of the chat is rejected by the service with its
    sender-not-authorized or receiver-not-in-chat error and leaves the
    store as it was (no message row); the gateway handler then emits
    nothing but an [error] event to the calling socket: no [newMessage]
    to the room, no [messageNotification]. *)
Theorem sendMessage_gated (env : Env) (g : Gateway) (client : Socket)
    (chatId senderId receiverId content : string) (image : option string)
    (s : Store) :
  userId client = Some senderId -> senderId ≠ "" ->
  ¬ is_active_participant s chatId senderId \/
  ¬ is_active_participant s chatId receiverId ->
  (sendMessage env chatId senderId receiverId content image s =
     (Err (Error "Sender not authorized for this chat"), s) \/
   sendMessage env chatId senderId receiverId content image s =
     (Err (Error "Receiver not found in this chat"), s)) /\
  handleSendMessage env g client chatId receiverId content image s =
    (s, [mkEmit (ToClient (sock_id client)) "error"
                (ErrorPayload "Failed to send message")]).
Proof.
  intros Hu Hne Hgate.
  assert (sendMessage env chatId senderId receiverId content image s =
            (Err (Error "Sender not authorized for this chat"), s) \/
          sendMessage env chatId senderId receiverId content image s =
            (Err (Error "Receiver not found in this chat"), s)) as Hsvc.
  { unfold sendMessage. svc_unfold.
    destruct (chatParticipant_findFirst s chatId senderId) eqn:Es; [|by left].
    destruct (chatParticipant_findFirst s chatId receiverId) eqn:Er; [|by right].
    exfalso. destruct Hgate as [H|H]; apply chatParticipant_findFirst_None in H;
      congruence. }
  split; [exact Hsvc|].
  unfold handleSendMessage. rewrite Hu. simpl.
  rewrite bool_decide_eq_false_2 by done. simpl.
  by destruct Hsvc as [-> | ->].
Qed.

Lemma sendMessage_gated_witness :
  sendMessage (Scenario.env 7 "m9") "c1" "mallory" "alice" "psst" None Scenario.s1 =
    (Err (Error "Sender not authorized for this chat"), Scenario.s1) /\
  handleSendMessage (Scenario.env 7 "m9") Scenario.g0
      (Scenario.accepted "S3" "mallory") "c1" "alice" "psst" None Scenario.s1 =
    (Scenario.s1, [mkEmit (ToClient "S3") "error"
                          (ErrorPayload "Failed to send message")]).
Proof.
  destruct (sendMessage_gated (Scenario.env 7 "m9") Scenario.g0
              (Scenario.accepted "S3" "mallory") "c1" "mallory" "alice" "psst"
              None Scenario.s1) as [Hsvc Hgw].
  - reflexivity.
  - discriminate.
  - left. decide_false.
  - split; [|exact Hgw]. vm_compute. reflexivity.
Defined.

(** *** sendMessage: the two writes are one transaction *)

Lemma chat_findUnique_touch (cs : list Chat) chatId now :
  head (filter (fun c => chat_id c = chatId) (touch_chat chatId now <$> cs)) =
  touch now <$> head (filter (fun c => chat_id c = chatId) cs).
Proof.
  induction cs as [|c cs IH]; [done|].
  assert (chat_id (touch_chat chatId now c) = chat_id c) as Hid
    by (unfold touch_chat; by case_decide).
  rewrite fmap_cons, !filter_cons.
  destruct (decide (chat_id c = chatId)) as [Heq|Hne].
  - rewrite decide_True by congruence. simpl.
    unfold touch_chat. by rewrite decide_True.
  - by rewrite decide_False by congruence.
Qed.

Lemma chat_findUnique_set_chatMessages s ms chatId :
  chat_findUnique (set_chatMessages s ms) chatId = chat_findUnique s chatId.
Proof. reflexivity. Qed.

Lemma chat_findUnique_Some s chatId :
  chatId ∈ (chat_id <$> chats s) -> is_Some (chat_findUnique s chatId).
Proof.
  intros Hin. apply not_eq_None_Some. intros Hnone.
  apply head_filter_None in Hnone. apply Hnone.
  apply list_elem_of_fmap in Hin as (c & -> & Hc).
  apply Exists_exists. by exists c.
Qed.

Lemma sendMessage_cases env chatId senderId receiverId content image s :
  (exists e, sendMessage env chatId senderId receiverId content image s = (Err e, s)) \/
  (exists mv s' c,
     sendMessage env chatId senderId receiverId content image s = (Ok mv, s') /\
     env_writeFails env 0%nat = false /\ env_writeFails env 1%nat = false /\
     mv_message mv =
       mkChatMessage (env_newId env) content image false (env_now env)
                     (env_now env) senderId receiverId chatId /\
     users s' = users s /\ events s' = events s /\
     eventParticipants s' = eventParticipants s /\
     chatParticipants s' = chatParticipants s /\
     chatMessages s' = chatMessages s ++ [mv_message mv] /\
     chats s' = touch_chat chatId (env_date env) <$> chats s /\
     chat_findUnique s chatId = Some c /\
     chat_findUnique s' chatId = Some (touch (env_date env) c)).
Proof.
  unfold sendMessage. svc_unfold.
  destruct (chatParticipant_findFirst s chatId senderId); [|left; eauto].
  destruct (chatParticipant_findFirst s chatId receiverId); [|left; eauto].
  unfold chatMessage_create, chat_update.
  destruct (env_writeFails env 0%nat) eqn:F0; simpl; [left; eauto|].
  destruct (decide (env_newId env ∈ (msg_id <$> chatMessages s))); simpl;
    [left; eauto|].
  destruct (decide (chatId ∈ (chat_id <$> chats s) /\ _)); simpl; [|left; eauto].
  destruct (env_writeFails env 1%nat) eqn:F1; simpl; [left; eauto|].
  rewrite chat_findUnique_set_chatMessages.
  destruct (chat_findUnique s chatId) as [ch|] eqn:Ec; simpl; [|left; eauto].
  right. eexists _, _, ch. split; [reflexivity|]. simpl.
  do 10 (split; [done|]).
  unfold chat_findUnique in *. simpl.
  change (fun c' : Chat => if decide (chat_id c' = chatId)
                           then touch (env_date env) c' else c')
    with (touch_chat chatId (env_date env)).
  by rewrite chat_findUnique_touch, Ec.
Qed.

Lemma sendMessage_succeeds env chatId senderId receiverId content image s :
  is_active_participant s chatId senderId ->
  is_active_participant s chatId receiverId ->
  writes_accepted env chatId senderId receiverId s ->
  is_Ok (fst (sendMessage env chatId senderId receiverId content image s)) = true.
Proof.
  intros Ha Hb (F0 & F1 & Hfresh & Hchat & Hsender & Hreceiver).
  unfold sendMessage. svc_unfold.
  destruct (chatParticipant_findFirst_Some _ _ _ Ha) as [cpa ->].
  destruct (chatParticipant_findFirst_Some _ _ _ Hb) as [cpb ->].
  unfold chatMessage_create, chat_update. rewrite F0.
  rewrite decide_False by done. rewrite decide_True by done. simpl.
  rewrite F1, chat_findUnique_set_chatMessages.
  by destruct (chat_findUnique_Some s chatId Hchat) as [c ->].
Qed.

(** C7. [sendMessage] writes the message row and the chat's [updatedAt]
    together or not at all.  A call between two active participants whose
    writes the store accepts succeeds; a call that succeeds has appended
    the message, stamped by the store's clock, and has set the chat's
    [updatedAt] to the service's [new Date()]; a call that fails, for
    whatever reason, leaves the store exactly as it was, and a call fails
    whenever either of the two writes is refused. *)
Theorem sendMessage_atomic (env : Env)
    (chatId senderId receiverId content : string) (image : option string)
    (s : Store) :
  let r := sendMessage env chatId senderId receiverId content image s in
  (env_writeFails env 0%nat = true \/ env_writeFails env 1%nat = true ->
   is_Ok (fst r) = false) /\
  (is_Ok (fst r) = false -> snd r = s) /\
  (is_active_participant s chatId senderId ->
   is_active_participant s chatId receiverId ->
   writes_accepted env chatId senderId receiverId s ->
   is_Ok (fst r) = true) /\
  (forall mv, fst r = Ok mv ->
     mv_message mv =
       mkChatMessage (env_newId env) content image false (env_now env)
                     (env_now env) senderId receiverId chatId /\
     chatMessages (snd r) = chatMessages s ++ [mv_message mv] /\
     chats (snd r) = touch_chat chatId (env_date env) <$> chats s /\
     exists c, chat_findUnique s chatId = Some c /\
               chat_findUnique (snd r) chatId = Some (touch (env_date env) c)).
Proof.
  cbv zeta. split; [|split; [|split; [apply sendMessage_succeeds|]]];
  destruct (sendMessage_cases env chatId senderId receiverId content image s)
    as [[e ->]|(mv & s' & c & -> & F0 & F1 & Hmv & _ & _ & _ & _ & Hms & Hcs & Hc & Hc')];
    simpl; try done.
  - intros [?|?]; congruence.
  - intros ? [= <-]. repeat (split; [done|]). by exists c.
Qed.

(** Bob writes to Alice at 5 by the store's clock and 11 by the service's:
    the message is stored and the chat stamped.  When the store refuses the
    second write, the message row the first write had added is gone again. *)
Lemma sendMessage_atomic_witness :
  let ok := mkEnv 5 "m1" (fun _ => false) 11 0 in
  let ko := mkEnv 5 "m1" (fun k => bool_decide (k = 1%nat)) 11 0 in
  let r := sendMessage ok "c1" "bob" "alice" "hi" None Scenario.s1 in
  let r' := sendMessage ko "c1" "bob" "alice" "hi" None Scenario.s1 in
  is_Ok (fst r) = true /\
  chatMessages (snd r) = [mkChatMessage "m1" "hi" None false 5 5 "bob" "alice" "c1"] /\
  chats (snd r) = [mkChat "c1" "ev1" 1 11] /\
  is_Ok (fst r') = false /\ snd r' = Scenario.s1 /\
  is_Ok (fst (chatMessage_create ko 0 "c1" "bob" "alice" "hi" None Scenario.s1)) = true.
Proof.
  pose proof (sendMessage_atomic (mkEnv 5 "m1" (fun _ => false) 11 0)
                "c1" "bob" "alice" "hi" None Scenario.s1) as (_ & _ & Hok & Heff).
  pose proof (sendMessage_atomic
                (mkEnv 5 "m1" (fun k => bool_decide (k = 1%nat)) 11 0)
                "c1" "bob" "alice" "hi" None Scenario.s1) as (Hfail & Hroll & _).
  cbv zeta in *.
  assert (is_Ok (fst (sendMessage (mkEnv 5 "m1" (fun _ => false) 11 0)
                        "c1" "bob" "alice" "hi" None Scenario.s1)) = true) as Hsucc.
  { apply Hok; [decide_true | decide_true |].
    unfold writes_accepted.
    split; [reflexivity|]. split; [reflexivity|]. split; [decide_false|].
    split; [decide_true|]. split; decide_true. }
  split; [exact Hsucc|].
  destruct (sendMessage (mkEnv 5 "m1" (fun _ => false) 11 0)
              "c1" "bob" "alice" "hi" None Scenario.s1) as [[mv|e] s'];
    [|discriminate].
  destruct (Heff mv eq_refl) as (Hmv & Hms & Hcs & _). simpl in *.
  split; [by rewrite Hms, Hmv|]. split; [by rewrite Hcs|].
  split; [|split].
  - apply Hfail. right. reflexivity.
  - apply Hroll, Hfail. right. reflexivity.
  - vm_compute. reflexivity.
Defined.

(** Without the transaction the first write would stay. *)
Lemma sendMessage_writes_without_transaction :
  let env := mkEnv 5 "m1" (fun k => bool_decide (k = 1%nat)) 11 0 in
  let body :=
    bind (chatMessage_create env 0 "c1" "bob" "alice" "hi" None)
         (fun newMessage => bind (chat_update env 1 "c1" 11) (fun _ => ret newMessage)) in
  is_Ok (fst (body Scenario.s1)) = false /\
  length (chatMessages (snd (body Scenario.s1))) = 1%nat /\
  snd (transaction body Scenario.s1) = Scenario.s1.
Proof. vm_compute. done. Qed.

(** *** markMessageAsRead *)

Lemma chatMessage_findUnique_mark (ms : list ChatMessage) messageId now :
  head (filter (fun m => msg_id m = messageId) (mark_message messageId now <$> ms)) =
  mark_read now <$> head (filter (fun m => msg_id m = messageId) ms).
Proof.
  induction ms as [|m ms IH]; [done|].
  assert (msg_id (mark_message messageId now m) = msg_id m) as Hid
    by (unfold mark_message; by case_decide).
  rewrite fmap_cons, !filter_cons.
  destruct (decide (msg_id m = messageId)) as [Heq|Hne].
  - rewrite decide_True by congruence. simpl.
    unfold mark_message. by rewrite decide_True.
  - by rewrite decide_False by congruence.
Qed.

Lemma markMessageAsRead_ok env messageId callerId s m :
  chatMessage_findUnique s messageId = Some m ->
  msg_receiverId m = callerId ->
  env_writeFails env 0%nat = false ->
  markMessageAsRead env messageId callerId s =
    (Ok (mark_read (env_now env) m),
     set_chatMessages s (mark_message messageId (env_now env) <$> chatMessages s)).
Proof.
  intros Hm Hrecv Hw. unfold markMessageAsRead. svc_unfold.
  rewrite Hm. simpl. rewrite bool_decide_eq_true_2 by done. simpl.
  unfold chatMessage_update_read. by rewrite Hw, Hm.
Qed.

(** C8. [markMessageAsRead] fails with its not-authorized error unless the
    caller is the receiver of the message, and with its not-found error
    when there is no such message; a call that fails leaves the store,
    hence every message, unchanged.  When the caller is the receiver the
    message's read flag is set, and a second call leaves it set. *)
Theorem markMessageAsRead_spec (env env' : Env) (messageId callerId : string)
    (s : Store) :
  (chatMessage_findUnique s messageId = None ->
   markMessageAsRead env messageId callerId s =
     (Err (Error "Message not found"), s)) /\
  (forall m, chatMessage_findUnique s messageId = Some m ->
     msg_receiverId m ≠ callerId ->
     markMessageAsRead env messageId callerId s =
       (Err (Error "Not authorized to mark this message as read"), s)) /\
  (is_Ok (fst (markMessageAsRead env messageId callerId s)) = false ->
   snd (markMessageAsRead env messageId callerId s) = s) /\
  (forall m, chatMessage_findUnique s messageId = Some m ->
     msg_receiverId m = callerId ->
     env_writeFails env 0%nat = false -> env_writeFails env' 0%nat = false ->
     let r1 := markMessageAsRead env messageId callerId s in
     let r2 := markMessageAsRead env' messageId callerId (snd r1) in
     exists m1 m2,
       fst r1 = Ok m1 /\ chatMessage_findUnique (snd r1) messageId = Some m1 /\
       msg_isRead m1 = true /\
       fst r2 = Ok m2 /\ chatMessage_findUnique (snd r2) messageId = Some m2 /\
       msg_isRead m2 = true /\
       msg_id m2 = msg_id m /\ msg_id m1 = msg_id m).
Proof.
  split; [|split; [|split]].
  - intros Hm. unfold markMessageAsRead. svc_unfold. by rewrite Hm.
  - intros m Hm Hne. unfold markMessageAsRead. svc_unfold. rewrite Hm. simpl.
    by rewrite bool_decide_eq_false_2.
  - unfold markMessageAsRead. svc_unfold.
    destruct (chatMessage_findUnique s messageId) as [m|] eqn:Hm; [|done].
    simpl. destruct (negb _); [done|].
    unfold chatMessage_update_read.
    destruct (env_writeFails env 0%nat); [done|]. by rewrite Hm.
  - intros m Hm Hrecv Hw Hw'. simpl.
    rewrite (markMessageAsRead_ok env _ _ _ m) by done. simpl.
    assert (chatMessage_findUnique
              (set_chatMessages s (mark_message messageId (env_now env) <$> chatMessages s))
              messageId = Some (mark_read (env_now env) m)) as Hm1.
    { unfold chatMessage_findUnique in *. simpl.
      by rewrite chatMessage_findUnique_mark, Hm. }
    rewrite (markMessageAsRead_ok env' _ _ _ (mark_read (env_now env) m)) by done.
    simpl. exists (mark_read (env_now env) m),
                  (mark_read (env_now env') (mark_read (env_now env) m)).
    repeat split; try done.
    unfold chatMessage_findUnique in *. simpl in *.
    by rewrite chatMessage_findUnique_mark, Hm1.
Qed.

Lemma markMessageAsRead_spec_witness :
  markMessageAsRead (Scenario.env 8 "") "m1" "bob" Scenario.s2 =
    (Err (Error "Not authorized to mark this message as read"), Scenario.s2) /\
  markMessageAsRead (Scenario.env 8 "") "m7" "alice" Scenario.s2 =
    (Err (Error "Message not found"), Scenario.s2) /\
  exists m1 m2,
    let r1 := markMessageAsRead (Scenario.env 8 "") "m1" "alice" Scenario.s2 in
    let r2 := markMessageAsRead (Scenario.env 9 "") "m1" "alice" (snd r1) in
    fst r1 = Ok m1 /\ msg_isRead m1 = true /\
    fst r2 = Ok m2 /\ msg_isRead m2 = true.
Proof.
  pose proof (markMessageAsRead_spec (Scenario.env 8 "") (Scenario.env 9 "")
                "m1" "bob" Scenario.s2) as (_ & Hdenied & _ & _).
  pose proof (markMessageAsRead_spec (Scenario.env 8 "") (Scenario.env 9 "")
                "m7" "alice" Scenario.s2) as (Hmissing & _ & _ & _).
  pose proof (markMessageAsRead_spec (Scenario.env 8 "") (Scenario.env 9 "")
                "m1" "alice" Scenario.s2) as (_ & _ & _ & Hread).
  split; [|split].
  - apply (Hdenied (mkChatMessage "m1" "hi" None false 5 5 "bob" "alice" "c1"));
      [vm_compute; reflexivity | discriminate].
  - apply Hmissing. vm_compute. reflexivity.
  - destruct (Hread (mkChatMessage "m1" "hi" None false 5 5 "bob" "alice" "c1"))
      as (m1 & m2 & H1 & _ & Hr1 & H2 & _ & Hr2 & _);
      [vm_compute; reflexivity | reflexivity | reflexivity | reflexivity |].
    exists m1, m2. cbv zeta.
    split; [exact H1|]. split; [exact Hr1|]. split; [exact H2|exact Hr2].
Defined.

(** *** The connection registry *)

Lemma handleConnection_accepts g client u :
  truthy (js_or (auth_token (handshake client))
                (headers_authorization (handshake client))) = true ->
  auth_userId (handshake client) = Some u -> u ≠ "" ->
  handleConnection g client =
    (mkGateway (<[u := sock_id client]> (connectedUsers g)),
     join (set_userId client (Some u)) (user_room u),
     [mkEmit (BroadcastFrom (sock_id client)) "userOnline" (UserPayload u)]).
Proof.
  intros Htok Hu Hne. unfold handleConnection. rewrite Htok, Hu. simpl.
  by rewrite bool_decide_eq_false_2.
Qed.

(** C5, as the gateway has it.  A disconnect of a socket that carries a
    user id removes that user's entry from [connectedUsers], whichever
    socket is registered for the user.  In particular, when a user connects
    with one socket, then with a second one, and the first one disconnects,
    the entry, which named the second socket, is removed and the user is
    reported offline. *)
Theorem handleDisconnect_unregisters (g : Gateway) (c1 c2 : Socket) (u : string) :
  truthy (js_or (auth_token (handshake c1))
                (headers_authorization (handshake c1))) = true ->
  truthy (js_or (auth_token (handshake c2))
                (headers_authorization (handshake c2))) = true ->
  auth_userId (handshake c1) = Some u ->
  auth_userId (handshake c2) = Some u ->
  u ≠ "" ->
  (forall g' client, userId client = Some u ->
     connectedUsers (fst (handleDisconnect g' client)) = delete u (connectedUsers g')) /\
  let '(g1, c1', _) := handleConnection g c1 in
  let '(g2, c2', _) := handleConnection g1 c2 in
  let g3 := fst (handleDisconnect g2 c1') in
  connectedUsers g2 !! u = Some (sock_id c2) /\
  connectedUsers g3 !! u = None /\
  isUserOnline g2 u = true /\
  isUserOnline g3 u = false.
Proof.
  intros Ht1 Ht2 Hu1 Hu2 Hne.
  assert (forall g' client, userId client = Some u ->
            connectedUsers (fst (handleDisconnect g' client)) =
            delete u (connectedUsers g')) as Hdel.
  { intros g' client Hc. unfold handleDisconnect. rewrite Hc. simpl.
    by rewrite bool_decide_eq_false_2. }
  split; [exact Hdel|].
  rewrite (handleConnection_accepts g c1 u) by done.
  rewrite (handleConnection_accepts _ c2 u) by done.
  cbv zeta. unfold isUserOnline. rewrite Hdel by done. simpl.
  rewrite lookup_insert_eq, lookup_delete_eq.
  split; [done|]. split; [done|]. split.
  - apply bool_decide_eq_true_2. by eexists.
  - apply bool_decide_eq_false_2. by intros [? ?].
Qed.

Lemma handleDisconnect_unregisters_witness :
  let '(g1, c1', _) := handleConnection Scenario.g0 (Scenario.socket "S1" "u") in
  let '(g2, c2', _) := handleConnection g1 (Scenario.socket "S2" "u") in
  let g3 := fst (handleDisconnect g2 c1') in
  connectedUsers g2 !! "u" = Some "S2" /\
  connectedUsers g3 !! "u" = None /\
  isUserOnline g2 "u" = true /\
  isUserOnline g3 "u" = false.
Proof.
  apply (handleDisconnect_unregisters Scenario.g0 (Scenario.socket "S1" "u")
           (Scenario.socket "S2" "u") "u");
    [reflexivity | reflexivity | reflexivity | reflexivity | discriminate].
Defined.

(** C5, as the specification states it, fails: the user connects with
    socket S1, then with S2, S1 disconnects, and the registration for S2
    is gone. *)
Lemma stale_disconnect_evicts_newer_session :
  exists g1 c1 e1 g2 c2 e2 g3 e3,
    handleConnection Scenario.g0 (Scenario.socket "S1" "u") = (g1, c1, e1) /\
    handleConnection g1 (Scenario.socket "S2" "u") = (g2, c2, e2) /\
    handleDisconnect g2 c1 = (g3, e3) /\
    sock_id c1 = "S1" /\
    connectedUsers g2 !! "u" = Some "S2" /\
    connectedUsers g3 !! "u" = None /\
    isUserOnline g3 "u" = false.
Proof.
  do 8 eexists. split; [reflexivity|]. split; [reflexivity|].
  split; [reflexivity|]. vm_compute. done.
Qed.

(** *** joinChat *)

Lemma handleJoinChat_joins client chatId :
  truthy (userId client) = true ->
  handleJoinChat client chatId =
    (join client (chat_room chatId),
     [mkEmit (ToClient (sock_id client)) "joinedChat" (ChatPayload chatId)]).
Proof. intros Hu. unfold handleJoinChat. by rewrite Hu. Qed.

(** C3 on the code.  Mallory is neither the host nor a participant of the
    event of Alice's and Bob's chat; her socket asks to join the chat, is
    subscribed to the chat's room and acknowledged, and the next message
    Bob sends to Alice is delivered to it. *)
Lemma handleJoinChat_subscribes_outsider :
  ¬ authorized_for_chat Scenario.s1 "c1" "mallory" /\
  ¬ is_active_participant Scenario.s1 "c1" "mallory" /\
  let '(mallory, emits) := handleJoinChat (Scenario.accepted "S3" "mallory") "c1" in
  emits = [mkEmit (ToClient "S3") "joinedChat" (ChatPayload "c1")] /\
  chat_room "c1" ∈ rooms mallory /\
  Exists (fun e => em_event e = "newMessage" /\ delivered_to mallory e)
         (snd (handleSendMessage (Scenario.env 5 "m1") Scenario.g0
                 (Scenario.accepted "S2" "bob") "c1" "alice" "hi" None
                 Scenario.s1)).
Proof.
  split; [decide_false|]. split; [decide_false|].
  rewrite handleJoinChat_joins by reflexivity.
  split; [reflexivity|]. split; [decide_true|]. decide_true.
Qed.

(** *** getOrCreateChat: who may open a room *)

Lemma eventParticipant_findFirst_None s eventId a b :
  eventParticipant_findFirst s eventId [a; b] = None <->
  ¬ (has_participant_row s eventId a \/ has_participant_row s eventId b).
Proof.
  unfold eventParticipant_findFirst, has_participant_row.
  rewrite head_filter_None, !Exists_exists. split.
  - intros Hno [(ep & Hin & He & Hu) | (ep & Hin & He & Hu)];
      apply Hno; exists ep; (split; [done|]); (split; [done|]);
      rewrite Hu; set_solver.
  - intros Hno (ep & Hin & He & Hu). apply Hno.
    rewrite !elem_of_cons, elem_of_nil in Hu.
    destruct Hu as [Hu|[Hu|[]]]; [left|right]; by exists ep.
Qed.

Lemma chat_create_cases env k eventId ids s :
  (exists f, chat_create env k eventId ids s = (Err (Prisma f), s)) \/
  ((env_newId env ∉ (chat_id <$> chats s)) /\ NoDup ids /\
   Forall (fun cp => ¬ (cp_chatId cp = env_newId env /\ cp_userId cp ∈ ids))
          (chatParticipants s) /\
   chat_create env k eventId ids s =
     (Ok (mkChat (env_newId env) eventId (env_now env) (env_now env)),
      set_chatParticipants
        (set_chats s (chats s ++ [mkChat (env_newId env) eventId (env_now env)
                                         (env_now env)]))
        (chatParticipants s ++
         ((fun u => mkChatParticipant u (env_newId env) (env_now env) true) <$> ids)))).
Proof.
  unfold chat_create.
  destruct (env_writeFails env k); [left; eauto|].
  destruct (decide (env_newId env ∈ (chat_id <$> chats s))); [left; eauto|].
  destruct (decide (eventId ∈ (event_id <$> events s) /\ _)); [|left; eauto].
  destruct (decide (NoDup ids /\ _)) as [[? ?]|]; [|left; eauto].
  right. done.
Qed.

Lemma getOrCreateChat_create_Err env eventId a b s :
  is_Ok (fst (getOrCreateChat_create env eventId a b s)) = false ->
  exists f, getOrCreateChat_create env eventId a b s = (Err (Prisma f), s).
Proof.
  unfold getOrCreateChat_create. svc_unfold.
  destruct (chat_create_cases env 0 eventId [a; b] s) as [[f ->]|(_ & _ & _ & ->)];
    simpl; [eauto|done].
Qed.

Lemma getOrCreateChat_find_eq env eventId a b s :
  getOrCreateChat_find env eventId a b s =
  match event_findUnique s eventId with
  | None => (Err (Error "Event not found"), s)
  | Some _ =>
      if decide (some_party_known s eventId a b)
      then (Ok (existing_room (env_pick env) s eventId a b), s)
      else (Err (Error "User not authorized for this event"), s)
  end.
Proof.
  unfold getOrCreateChat_find, existing_room. svc_unfold.
  destruct (event_findUnique s eventId) as [ev|] eqn:Hev; [|done]. simpl.
  assert (forall u, is_host s eventId u <-> event_creatorId ev = u) as Hh
    by (intros u; unfold is_host; by rewrite Hev).
  assert (is_Some (eventParticipant_findFirst s eventId [a; b]) <->
          has_participant_row s eventId a \/ has_participant_row s eventId b)
    as Hrow.
  { rewrite <- not_eq_None_Some, eventParticipant_findFirst_None.
    destruct (decide (has_participant_row s eventId a));
      destruct (decide (has_participant_row s eventId b)); tauto. }
  assert (forall st : Store,
            match chat_view st false <$> chat_findFirst (env_pick env) st eventId [a; b] with
            | Some existingChat =>
                if decide (length (cv_participants existingChat) = 2%nat)
                then fun s2 : Store => (Ok (Some existingChat), s2)
                else fun s2 : Store => (Ok None, s2)
            | None => fun s2 : Store => (Ok None, s2)
            end st =
            (Ok match chat_findFirst (env_pick env) st eventId [a; b] with
                | Some c =>
                    if decide (length (participants_of st (chat_id c)) = 2%nat)
                    then Some (chat_view st false c) else None
                | None => None
                end, st)) as Hlook.
  { intros st. destruct (chat_findFirst (env_pick env) st eventId [a; b]); simpl; [|done].
    rewrite length_fmap. by case_decide. }
  destruct (decide (some_party_known s eventId a b)) as [Hk|Hk];
    unfold some_party_known in Hk; rewrite !Hh, <- Hrow in Hk.
  - replace (negb (bool_decide (event_creatorId ev = a) ||
                   bool_decide (event_creatorId ev = b)) &&
             negb (bool_decide (is_Some (eventParticipant_findFirst s eventId [a; b]))))
      with false; [apply Hlook|].
    symmetry. apply andb_false_iff.
    rewrite !negb_false_iff, orb_true_iff, !bool_decide_eq_true. tauto.
  - replace (negb (bool_decide (event_creatorId ev = a) ||
                   bool_decide (event_creatorId ev = b)) &&
             negb (bool_decide (is_Some (eventParticipant_findFirst s eventId [a; b]))))
      with true; [done|].
    symmetry. apply andb_true_iff.
    rewrite !negb_true_iff, orb_false_iff, !bool_decide_eq_false. tauto.
Qed.

Lemma getOrCreateChat_eq env eventId a b s :
  getOrCreateChat env eventId a b s =
  match event_findUnique s eventId with
  | None => (Err (Error "Event not found"), s)
  | Some _ =>
      if decide (some_party_known s eventId a b)
      then match existing_room (env_pick env) s eventId a b with
           | Some v => (Ok v, s)
           | None => getOrCreateChat_create env eventId a b s
           end
      else (Err (Error "User not authorized for this event"), s)
  end.
Proof.
  unfold getOrCreateChat, bind. rewrite getOrCreateChat_find_eq.
  destruct (event_findUnique s eventId); [|done].
  case_decide; [|done]. by destruct (existing_room (env_pick env) s eventId a b).
Qed.

(** C1, as the service has it.  [getOrCreateChat] fails with its
    event-not-found error when the event does not exist and, when it
    exists, with its not-authorized error exactly when neither of the two
    users is the event's creator or has a participant row for the event
    (of whatever status): one authorized party is enough.  A call that
    fails creates nothing. *)
Theorem getOrCreateChat_validation (env : Env) (eventId a b : string) (s : Store) :
  (event_findUnique s eventId = None ->
   getOrCreateChat env eventId a b s = (Err (Error "Event not found"), s)) /\
  (is_Some (event_findUnique s eventId) ->
   (getOrCreateChat env eventId a b s =
      (Err (Error "User not authorized for this event"), s) <->
    ¬ (is_host s eventId a \/ is_host s eventId b \/
       has_participant_row s eventId a \/ has_participant_row s eventId b))) /\
  (is_Ok (fst (getOrCreateChat env eventId a b s)) = false ->
   snd (getOrCreateChat env eventId a b s) = s).
Proof.
  rewrite getOrCreateChat_eq. fold (some_party_known s eventId a b).
  destruct (event_findUnique s eventId) as [ev|] eqn:Hev.
  2:{ split; [done|]. split; [by intros [? ?]|done]. }
  split; [done|].
  destruct (decide (some_party_known s eventId a b)) as [Hk|Hk].
  2:{ split; [|done]. intros _. by split. }
  destruct (existing_room (env_pick env) s eventId a b) as [v|].
  { split; [|done]. intros _. split; [discriminate|tauto]. }
  destruct (is_Ok (fst (getOrCreateChat_create env eventId a b s))) eqn:Hok.
  - split; [|done]. intros _. split; [|tauto].
    intros Heq. rewrite Heq in Hok. discriminate.
  - destruct (getOrCreateChat_create_Err _ _ _ _ _ Hok) as [f ->].
    split; [|done]. intros _. split; [discriminate|tauto].
Qed.

Lemma getOrCreateChat_validation_witness :
  getOrCreateChat (Scenario.env 1 "c9") "ev0" "alice" "bob" Scenario.s0 =
    (Err (Error "Event not found"), Scenario.s0) /\
  getOrCreateChat (Scenario.env 1 "c9") "ev1" "mallory" "mallory" Scenario.s0 =
    (Err (Error "User not authorized for this event"), Scenario.s0) /\
  getOrCreateChat (Scenario.env 1 "c9") "ev1" "alice" "mallory" Scenario.s0 ≠
    (Err (Error "User not authorized for this event"), Scenario.s0).
Proof.
  pose proof (getOrCreateChat_validation (Scenario.env 1 "c9") "ev0" "alice" "bob"
                Scenario.s0) as (Hmissing & _ & _).
  pose proof (getOrCreateChat_validation (Scenario.env 1 "c9") "ev1" "mallory"
                "mallory" Scenario.s0) as (_ & Hdenied & _).
  pose proof (getOrCreateChat_validation (Scenario.env 1 "c9") "ev1" "alice"
                "mallory" Scenario.s0) as (_ & Hone & _).
  split; [|split].
  - apply Hmissing. reflexivity.
  - apply Hdenied; [by eexists|]. decide_false.
  - intros Heq. apply Hone in Heq; [|by eexists].
    apply Heq. left. reflexivity.
Defined.

(** C1, as the specification states it, fails: Mallory is neither the host
    nor a participant of the event, and a call for Alice (the host) and
    Mallory succeeds and creates the room and its two participant rows. *)
Lemma getOrCreateChat_admits_unauthorized_party :
  ¬ authorized_for_event Scenario.s0 "ev1" "mallory" /\
  chats Scenario.s0 = [] /\ chatParticipants Scenario.s0 = [] /\
  exists v s',
    getOrCreateChat (Scenario.env 1 "c9") "ev1" "alice" "mallory" Scenario.s0 =
      (Ok v, s') /\
    chats s' = [mkChat "c9" "ev1" 1 1] /\
    chatParticipants s' = [mkChatParticipant "alice" "c9" 1 true;
                           mkChatParticipant "mallory" "c9" 1 true].
Proof.
  split; [decide_false|]. split; [done|]. split; [done|].
  do 2 eexists. split; [vm_compute; reflexivity|]. done.
Qed.

(** *** What each call does to the message table *)

Lemma paging_accepted_spec page limit :
  (js_skip page limit <? 0) || negb (fits_int64 (js_skip page limit))
    || negb (fits_int64 limit) = false <->
  paging_accepted page limit.
Proof.
  unfold paging_accepted.
  rewrite !orb_false_iff, !negb_false_iff, Z.ltb_ge. tauto.
Qed.

Lemma getChatMessages_cases env chatId userId page limit s :
  (exists e, getChatMessages env chatId userId page limit s = (Err e, s)) \/
  (is_active_participant s chatId userId /\ paging_accepted page limit /\
   env_writeFails env 0%nat = false /\
   getChatMessages env chatId userId page limit s =
     (Ok (mkMessagePage
            (reverse (message_view s <$>
                        paginate (js_skip page limit) limit
                                 (newest_first (messages_of s chatId))))
            (bool_decide
               (Z.of_nat (length (message_view s <$>
                                    paginate (js_skip page limit) limit
                                             (newest_first (messages_of s chatId))))
                = limit))
            page),
      set_chatMessages s (mark_unread chatId userId (env_now env) <$> chatMessages s))).
Proof.
  unfold getChatMessages. svc_unfold.
  destruct (chatParticipant_findFirst s chatId userId) eqn:Hp; [|left; eauto].
  unfold chatMessage_findMany, chatMessage_updateMany_read.
  destruct ((js_skip page limit <? 0) || negb (fits_int64 (js_skip page limit))
            || negb (fits_int64 limit)) eqn:Hskip; simpl; [left; eauto|].
  destruct (env_writeFails env 0%nat) eqn:Hw; simpl; [left; eauto|].
  right. split; [|split; [by apply paging_accepted_spec|done]].
  destruct (decide (is_active_participant s chatId userId)) as [|Hno]; [done|].
  apply chatParticipant_findFirst_None in Hno. congruence.
Qed.

Lemma getChatMessages_ok env chatId userId page limit s :
  is_active_participant s chatId userId ->
  paging_accepted page limit ->
  env_writeFails env 0%nat = false ->
  is_Ok (fst (getChatMessages env chatId userId page limit s)) = true.
Proof.
  intros Hp Hskip Hw. unfold getChatMessages. svc_unfold.
  destruct (chatParticipant_findFirst_Some _ _ _ Hp) as [cp ->].
  unfold chatMessage_findMany, chatMessage_updateMany_read.
  rewrite (proj2 (paging_accepted_spec _ _) Hskip). simpl. by rewrite Hw.
Qed.

Lemma getChatMessages_refused env chatId userId page limit s :
  is_active_participant s chatId userId ->
  ¬ paging_accepted page limit ->
  getChatMessages env chatId userId page limit s = (Err (Prisma InvalidArgument), s).
Proof.
  intros Hp Hskip. unfold getChatMessages. svc_unfold.
  destruct (chatParticipant_findFirst_Some _ _ _ Hp) as [cp ->].
  unfold chatMessage_findMany.
  destruct ((js_skip page limit <? 0) || negb (fits_int64 (js_skip page limit))
            || negb (fits_int64 limit)) eqn:Hb; [done|].
  by apply paging_accepted_spec in Hb.
Qed.

Lemma markMessageAsRead_cases env messageId userId s :
  (exists e, markMessageAsRead env messageId userId s = (Err e, s)) \/
  (exists m, chatMessage_findUnique s messageId = Some m /\
             msg_receiverId m = userId /\
             markMessageAsRead env messageId userId s =
               (Ok (mark_read (env_now env) m),
                set_chatMessages s
                  (mark_message messageId (env_now env) <$> chatMessages s))).
Proof.
  destruct (chatMessage_findUnique s messageId) as [m|] eqn:Hm.
  2:{ left. eexists. unfold markMessageAsRead. svc_unfold. by rewrite Hm. }
  destruct (decide (msg_receiverId m = userId)) as [Hr|Hr].
  2:{ left. eexists. unfold markMessageAsRead. svc_unfold. rewrite Hm. simpl.
      by rewrite bool_decide_eq_false_2. }
  destruct (env_writeFails env 0%nat) eqn:Hw.
  - left. unfold markMessageAsRead, chatMessage_update_read. svc_unfold.
    rewrite Hm. simpl. rewrite bool_decide_eq_true_2 by done. simpl.
    rewrite Hw. eauto.
  - right. exists m. split; [done|]. split; [done|].
    by apply markMessageAsRead_ok.
Qed.

Lemma getOrCreateChat_cases env eventId a b s :
  (exists r, getOrCreateChat env eventId a b s = (r, s) /\
             (forall v, r = Ok v -> existing_room (env_pick env) s eventId a b = Some v)) \/
  (is_Some (event_findUnique s eventId) /\ some_party_known s eventId a b /\
   existing_room (env_pick env) s eventId a b = None /\
   (env_newId env ∉ (chat_id <$> chats s)) /\ a ≠ b /\
   Forall (fun cp => ¬ (cp_chatId cp = env_newId env /\ cp_userId cp ∈ [a; b]))
          (chatParticipants s) /\
   let c := mkChat (env_newId env) eventId (env_now env) (env_now env) in
   let s' := set_chatParticipants (set_chats s (chats s ++ [c]))
               (chatParticipants s ++
                [mkChatParticipant a (env_newId env) (env_now env) true;
                 mkChatParticipant b (env_newId env) (env_now env) true]) in
   getOrCreateChat env eventId a b s = (Ok (chat_view s' true c), s')).
Proof.
  rewrite getOrCreateChat_eq.
  destruct (event_findUnique s eventId) as [ev|] eqn:Hev; [|left; eexists; by split].
  destruct (decide (some_party_known s eventId a b)) as [Hk|Hk];
    [|left; eexists; by split].
  destruct (existing_room (env_pick env) s eventId a b) as [v|] eqn:Hroom.
  { left. eexists. split; [done|]. by intros ? [= <-]. }
  unfold getOrCreateChat_create. svc_unfold.
  destruct (chat_create_cases env 0 eventId [a; b] s)
    as [[f Hf]|(Hfresh & Hnd & Hkey & Hc)].
  - left. rewrite Hf. eexists. by split.
  - right. rewrite Hc. simpl. split; [by eexists|]. repeat (split; [done|]).
    split; [|done].
    apply NoDup_cons in Hnd as [Hnd _]. set_solver.
Qed.

(** *** The read flag only goes up *)

Lemma read_le_refl m : read_le m m.
Proof. by repeat split. Qed.

Lemma read_le_trans m1 m2 m3 : read_le m1 m2 -> read_le m2 m3 -> read_le m1 m3.
Proof. unfold read_le. intros ? ?. intuition congruence. Qed.

Lemma read_le_mark_read now m : read_le m (mark_read now m).
Proof. by repeat split. Qed.

Lemma read_monotone_refl ms : read_monotone ms ms.
Proof. intros i m Hm. exists m. split; [done|apply read_le_refl]. Qed.

Lemma read_monotone_trans ms1 ms2 ms3 :
  read_monotone ms1 ms2 -> read_monotone ms2 ms3 -> read_monotone ms1 ms3.
Proof.
  intros H12 H23 i m Hm. destruct (H12 i m Hm) as (m2 & Hm2 & Hle2).
  destruct (H23 i m2 Hm2) as (m3 & Hm3 & Hle3).
  exists m3. split; [done|]. by eapply read_le_trans.
Qed.

Lemma read_monotone_app ms l : read_monotone ms (ms ++ l).
Proof.
  intros i m Hm. exists m. split; [|apply read_le_refl].
  by apply lookup_app_l_Some.
Qed.

Lemma read_monotone_fmap (f : ChatMessage -> ChatMessage) ms :
  (forall m, read_le m (f m)) -> read_monotone ms (f <$> ms).
Proof.
  intros Hf i m Hm. exists (f m). split; [|apply Hf].
  by rewrite list_lookup_fmap, Hm.
Qed.

Lemma run_call_read_monotone env c s :
  read_monotone (chatMessages s) (chatMessages (run_call env c s)).
Proof.
  destruct c as [e a b|c u page limit|c a b content image|mid u]; simpl.
  - destruct (getOrCreateChat_cases env e a b s)
      as [(r & -> & _)|(_ & _ & _ & _ & _ & _ & ->)]; apply read_monotone_refl.
  - destruct (getChatMessages_cases env c u page limit s)
      as [[e ->]|(_ & _ & _ & ->)]; simpl; [apply read_monotone_refl|].
    apply read_monotone_fmap. intros m. unfold mark_unread.
    case_decide; [apply read_le_mark_read|apply read_le_refl].
  - destruct (sendMessage_cases env c a b content image s)
      as [[e ->]|(mv & s' & ch & -> & _ & _ & _ & _ & _ & _ & _ & Hms & _)]; simpl;
      [apply read_monotone_refl|].
    rewrite Hms. apply read_monotone_app.
  - destruct (markMessageAsRead_cases env mid u s)
      as [[e ->]|(m & _ & _ & ->)]; simpl; [apply read_monotone_refl|].
    apply read_monotone_fmap. intros m'. unfold mark_message.
    case_decide; [apply read_le_mark_read|apply read_le_refl].
Qed.

Lemma run_calls_read_monotone calls s :
  read_monotone (chatMessages s) (chatMessages (run_calls calls s)).
Proof.
  revert s. induction calls as [|[env c] calls IH]; intros s; simpl.
  - apply read_monotone_refl.
  - eapply read_monotone_trans; [apply run_call_read_monotone|apply IH].
Qed.

(** C9. A message is created unread, and through any sequence of calls of
    the service ([sendMessage], [getChatMessages], [markMessageAsRead], and
    [getOrCreateChat]) a message row that is read stays in the table, the
    same message, and read. *)
Theorem isRead_monotonic :
  (forall env chatId senderId receiverId content image s mv,
     fst (sendMessage env chatId senderId receiverId content image s) = Ok mv ->
     msg_isRead (mv_message mv) = false) /\
  (forall (calls : list (Env * Call)) (s : Store) (i : nat) (m : ChatMessage),
     chatMessages s !! i = Some m -> msg_isRead m = true ->
     exists m', chatMessages (run_calls calls s) !! i = Some m' /\
                read_le m m' /\ msg_isRead m' = true).
Proof.
  split.
  - intros env chatId senderId receiverId content image s mv Hok.
    destruct (sendMessage_cases env chatId senderId receiverId content image s)
      as [[e He]|(mv' & s' & ch & He & _ & _ & Hmv & _)]; rewrite He in Hok;
      simpl in Hok; [done|]. injection Hok as <-. by rewrite Hmv.
  - intros calls s i m Hm Hread.
    destruct (run_calls_read_monotone calls s i m Hm) as (m' & Hm' & Hle).
    exists m'. split; [done|]. split; [done|]. by apply Hle.
Qed.

(** Alice reads Bob's message; Bob then sends another one, Alice fetches
    the history and marks the first message again: it is still read. *)
Lemma isRead_monotonic_witness :
  let s := snd (markMessageAsRead (Scenario.env 7 "") "m1" "alice" Scenario.s2) in
  let calls :=
    [(Scenario.env 8 "m2", SendMessage "c1" "bob" "alice" "there?" None);
     (Scenario.env 9 "", GetChatMessages "c1" "alice" 1 50);
     (Scenario.env 10 "", MarkMessageAsRead "m1" "alice");
     (Scenario.env 11 "c2", GetOrCreateChat "ev1" "alice" "bob")] in
  exists m m',
    chatMessages s !! 0%nat = Some m /\ msg_isRead m = true /\
    chatMessages (run_calls calls s) !! 0%nat = Some m' /\
    msg_id m' = "m1" /\ msg_isRead m' = true.
Proof.
  cbv zeta.
  destruct isRead_monotonic as [_ Hmono].
  destruct (Hmono
    [(Scenario.env 8 "m2", SendMessage "c1" "bob" "alice" "there?" None);
     (Scenario.env 9 "", GetChatMessages "c1" "alice" 1 50);
     (Scenario.env 10 "", MarkMessageAsRead "m1" "alice");
     (Scenario.env 11 "c2", GetOrCreateChat "ev1" "alice" "bob")]
    (snd (markMessageAsRead (Scenario.env 7 "") "m1" "alice" Scenario.s2))
    0%nat (mkChatMessage "m1" "hi" None true 5 7 "bob" "alice" "c1"))
    as (m' & Hm' & (Hid & _) & Hread); [reflexivity | reflexivity |].
  exists (mkChatMessage "m1" "hi" None true 5 7 "bob" "alice" "c1"), m'.
  split; [reflexivity|]. split; [reflexivity|].
  split; [exact Hm'|]. split; [exact Hid|exact Hread].
Defined.

(** *** getChatMessages: the read receipts *)

(** C10, as the specification states it, for every page and limit, fails: an
    active participant who asks for page [-1] of fifty, as
    [GET /api/chat/c1/messages?page=-1] does, has a [skip] of [-100]; the
    page query is refused, the call fails before the update, and her two
    unread messages stay unread.  The same happens with a [limit] of
    [2^63], which is no 64-bit integer. *)
Lemma getChatMessages_refused_paging_marks_nothing :
  is_active_participant Scenario.s3 "c1" "alice" /\
  ((fun m => (msg_chatId m, msg_receiverId m, msg_isRead m)) <$>
     chatMessages Scenario.s3) =
    [("c1", "alice", false); ("c1", "alice", false)] /\
  js_skip (-1) 50 = -100 /\
  getChatMessages (Scenario.env 9 "") "c1" "alice" (-1) 50 Scenario.s3 =
    (Err (Prisma InvalidArgument), Scenario.s3) /\
  getChatMessages (Scenario.env 9 "") "c1" "alice" 1 (2 ^ 63) Scenario.s3 =
    (Err (Prisma InvalidArgument), Scenario.s3).
Proof.
  split; [decide_true|]. split; [reflexivity|]. split; [reflexivity|].
  split; vm_compute; reflexivity.
Qed.

(** C10, as the service has it.  An active participant fetches a page of a
    chat from a store that takes the write.  When the client of the store
    accepts the paging ([skip], the double [(page - 1) * limit], is not
    negative, and [skip] and [limit] are 64-bit integers), every message of
    the whole chat that is addressed to the caller is read afterwards,
    whether the page shows it or not, and every message that is addressed
    to someone else, or belongs to another chat, is left as it was; no
    other table changes.  With any other paging the page query is refused,
    the call fails and the store is as it was: nothing is marked. *)
Theorem getChatMessages_marks_whole_chat (env : Env) (chatId userId : string)
    (page limit : Z) (s : Store) :
  is_active_participant s chatId userId ->
  env_writeFails env 0%nat = false ->
  (paging_accepted page limit ->
   exists pg s',
     getChatMessages env chatId userId page limit s = (Ok pg, s') /\
     length (chatMessages s') = length (chatMessages s) /\
     (forall i m, chatMessages s !! i = Some m ->
        msg_chatId m = chatId -> msg_receiverId m = userId ->
        exists m', chatMessages s' !! i = Some m' /\ read_le m m' /\
                   msg_isRead m' = true) /\
     (forall i m, chatMessages s !! i = Some m ->
        msg_receiverId m ≠ userId \/ msg_chatId m ≠ chatId ->
        chatMessages s' !! i = Some m) /\
     users s' = users s /\ events s' = events s /\
     eventParticipants s' = eventParticipants s /\
     chats s' = chats s /\ chatParticipants s' = chatParticipants s) /\
  (¬ paging_accepted page limit ->
   getChatMessages env chatId userId page limit s =
     (Err (Prisma InvalidArgument), s)).
Proof.
  intros Hp Hw. split; [|by apply getChatMessages_refused].
  intros Hskip.
  destruct (getChatMessages_cases env chatId userId page limit s)
    as [[e He]|(_ & _ & _ & He)].
  { pose proof (getChatMessages_ok env chatId userId page limit s Hp Hskip Hw) as Hok.
    by rewrite He in Hok. }
  rewrite He. do 2 eexists. split; [done|]. simpl.
  split; [by rewrite length_fmap|].
  split; [|split; [|done]].
  - intros i m Hm Hc Hr. rewrite list_lookup_fmap, Hm. simpl.
    eexists. split; [done|]. unfold mark_unread.
    destruct (decide (unread_for chatId userId m)) as [Hun|Hun].
    + split; [apply read_le_mark_read|done].
    + split; [apply read_le_refl|].
      destruct (msg_isRead m) eqn:Hread; [done|]. exfalso. by apply Hun.
  - intros i m Hm Hother. rewrite list_lookup_fmap, Hm. simpl.
    unfold mark_unread. rewrite decide_False; [done|].
    intros (? & ? & _). tauto.
Qed.

(** Bob has sent Alice two messages; she fetches a page of one message:
    the page shows the newer one, and both are read afterwards.  Asked for
    page [0] of one message, the service fails and leaves both unread. *)
Lemma getChatMessages_marks_whole_chat_witness :
  (exists pg s',
     getChatMessages (Scenario.env 9 "") "c1" "alice" 1 1 Scenario.s3 = (Ok pg, s') /\
     (msg_id ∘ mv_message <$> page_messages pg) = ["m2"] /\
     (msg_isRead <$> chatMessages Scenario.s3) = [false; false] /\
     (msg_isRead <$> chatMessages s') = [true; true]) /\
  getChatMessages (Scenario.env 9 "") "c1" "alice" 0 1 Scenario.s3 =
    (Err (Prisma InvalidArgument), Scenario.s3).
Proof.
  split.
  - destruct (getChatMessages_marks_whole_chat (Scenario.env 9 "") "c1" "alice" 1 1
                Scenario.s3) as [Hyes _]; [decide_true | reflexivity |].
    destruct Hyes as (pg & s' & Hcall & _); [decide_true|].
    exists pg, s'. split; [exact Hcall|].
    vm_compute in Hcall. injection Hcall as <- <-.
    vm_compute. done.
  - destruct (getChatMessages_marks_whole_chat (Scenario.env 9 "") "c1" "alice" 0 1
                Scenario.s3) as [_ Hno]; [decide_true | reflexivity |].
    apply Hno. decide_false.
Defined.

(** *** The example of the specification: a message, then the history *)

Lemma filter_fmap_stable {A} (P : A -> Prop) `{!forall x, Decision (P x)}
    (f : A -> A) (l : list A) :
  (forall x, P (f x) <-> P x) -> filter P (f <$> l) = f <$> filter P l.
Proof.
  intros Hf. induction l as [|x l IH]; [done|].
  rewrite fmap_cons, !filter_cons, IH.
  destruct (decide (P x)) as [Hx|Hx].
  - by rewrite decide_True by by apply Hf.
  - by rewrite decide_False by by rewrite Hf.
Qed.

Lemma mark_unread_chatId chatId userId now m :
  msg_chatId (mark_unread chatId userId now m) = msg_chatId m.
Proof. unfold mark_unread. by case_decide. Qed.

Lemma messages_of_mark_unread s chatId userId now c :
  messages_of (set_chatMessages s (mark_unread chatId userId now <$> chatMessages s)) c =
  mark_unread chatId userId now <$> messages_of s c.
Proof.
  unfold messages_of. simpl. apply filter_fmap_stable.
  intros m. by rewrite mark_unread_chatId.
Qed.

Lemma getChatList_entry userId s entry :
  entry ∈ getChatList userId s ->
  cl_unreadCount entry = unreadCount s (cl_chatId entry) userId.
Proof.
  unfold getChatList. intros Hin.
  apply list_elem_of_fmap in Hin as ([cp chat] & -> & _). done.
Qed.

Lemma getChatList_has_entry userId s chatId :
  is_active_participant s chatId userId ->
  is_Some (chat_findUnique s chatId) ->
  exists entry, entry ∈ getChatList userId s /\ cl_chatId entry = chatId.
Proof.
  intros Hp [c Hc]. apply Exists_exists in Hp as (cp & Hin & Hchat & Huser & Hact).
  destruct (head_filter_Some_inv _ _ _ Hc) as [Hid _].
  unfold getChatList.
  eexists. split.
  - apply list_elem_of_fmap. exists (cp, c). split; [reflexivity|].
    rewrite merge_sort_Permutation. apply list_elem_of_omap.
    exists cp. split.
    + apply list_elem_of_filter. by split.
    + by rewrite Hchat, Hc.
  - done.
Qed.

(** C4, as the service has it.  In a chat whose only message [m] is unread
    and addressed to the caller, the first page of fifty returns [m] as it
    was read from the store, that is with [isRead] still false; after the
    call the stored message is read and the caller's unread count for the
    chat, one before, is zero in [getChatList]. *)
Theorem getChatMessages_example (env : Env) (chatId userId : string)
    (s : Store) (m : ChatMessage) :
  is_active_participant s chatId userId ->
  env_writeFails env 0%nat = false ->
  messages_of s chatId = [m] ->
  msg_receiverId m = userId ->
  msg_isRead m = false ->
  exists s',
    getChatMessages env chatId userId 1 50 s =
      (Ok (mkMessagePage [message_view s m] false 1), s') /\
    messages_of s' chatId = [mark_read (env_now env) m] /\
    unreadCount s chatId userId = 1%nat /\
    (forall entry, entry ∈ getChatList userId s' -> cl_chatId entry = chatId ->
                   cl_unreadCount entry = 0%nat) /\
    (is_Some (chat_findUnique s chatId) ->
     exists entry, entry ∈ getChatList userId s' /\ cl_chatId entry = chatId).
Proof.
  intros Hp Hw Hms Hrecv Hunread.
  assert (msg_chatId m = chatId) as Hchat.
  { assert (m ∈ messages_of s chatId) as Hin by (rewrite Hms; left).
    by apply list_elem_of_filter in Hin as [? _]. }
  destruct (getChatMessages_cases env chatId userId 1 50 s)
    as [[e He]|(_ & _ & _ & He)].
  { assert (paging_accepted 1 50) as Hskip by (by vm_compute).
    pose proof (getChatMessages_ok env chatId userId 1 50 s Hp Hskip Hw) as Hok.
    by rewrite He in Hok. }
  eexists. split; [|split; [|split; [|split]]].
  - rewrite He, Hms. reflexivity.
  - rewrite messages_of_mark_unread, Hms. simpl. unfold mark_unread.
    by rewrite decide_True.
  - unfold unreadCount. rewrite Hms, filter_cons, decide_True; done.
  - intros entry Hin Hid.
    rewrite (getChatList_entry _ _ _ Hin), Hid. unfold unreadCount.
    rewrite messages_of_mark_unread, Hms. simpl. unfold mark_unread.
    rewrite decide_True by done.
    rewrite filter_cons, decide_False; [done|]. simpl. by intros [_ ?].
  - intros Hc. by apply getChatList_has_entry.
Qed.

Lemma getChatMessages_example_witness :
  exists s',
    getChatMessages (Scenario.env 9 "") "c1" "alice" 1 50 Scenario.s2 =
      (Ok (mkMessagePage
             [mkMessageView (mkChatMessage "m1" "hi" None false 5 5 "bob" "alice" "c1")
                            (Some Scenario.bob) (Some Scenario.alice)]
             false 1), s') /\
    messages_of s' "c1" = [mkChatMessage "m1" "hi" None true 5 9 "bob" "alice" "c1"] /\
    unreadCount Scenario.s2 "c1" "alice" = 1%nat /\
    (cl_unreadCount <$> getChatList "alice" s') = [0%nat].
Proof.
  destruct (getChatMessages_example (Scenario.env 9 "") "c1" "alice" Scenario.s2
              (mkChatMessage "m1" "hi" None false 5 5 "bob" "alice" "c1"))
    as (s' & Hcall & Hms & Hbefore & _);
    [decide_true | reflexivity | reflexivity | reflexivity | reflexivity |].
  exists s'. split; [exact Hcall|]. split; [exact Hms|]. split; [exact Hbefore|].
  vm_compute in Hcall. injection Hcall as <-. vm_compute. reflexivity.
Defined.

(** C4, as the specification states it, fails on its first half: the
    message the history returns to Alice is addressed to her and carries
    [isRead] false. *)
Lemma getChatMessages_returns_snapshot :
  exists pg s',
    getChatMessages (Scenario.env 9 "") "c1" "alice" 1 50 Scenario.s2 = (Ok pg, s') /\
    (msg_receiverId ∘ mv_message <$> page_messages pg) = ["alice"] /\
    (msg_isRead ∘ mv_message <$> page_messages pg) = [false].
Proof. do 2 eexists. split; [vm_compute; reflexivity|]. done. Qed.

(** *** getOrCreateChat: one room per pair *)

Lemma filter_iff_in {A} (P Q : A -> Prop) `{!forall x, Decision (P x)}
    `{!forall x, Decision (Q x)} (l : list A) :
  (forall x, x ∈ l -> P x <-> Q x) -> filter P l = filter Q l.
Proof.
  induction l as [|x l IH]; intros Hpq; [done|].
  rewrite !filter_cons, IH by (intros y Hy; apply Hpq; by right).
  destruct (decide (P x)) as [Hx|Hx].
  - rewrite decide_True; [done|]. apply Hpq; [left|done].
  - rewrite decide_False; [done|]. rewrite <- Hpq; [done|left].
Qed.

Lemma chat_matches_ids s s' e ids ids' c c' :
  chatParticipants s' = chatParticipants s ->
  chat_id c' = chat_id c -> chat_eventId c' = chat_eventId c ->
  (forall u, u ∈ ids <-> u ∈ ids') ->
  chat_matches s e ids c <-> chat_matches s' e ids' c'.
Proof.
  intros Hps Hid Hev Hids. unfold chat_matches, participants_of.
  rewrite Hps, Hid, Hev. apply and_iff_compat_l.
  rewrite !Forall_forall. split; intros Hall cp Hcp; apply Hids, Hall, Hcp.
Qed.

Lemma rooms_for_swap s e a b : rooms_for s e b a = rooms_for s e a b.
Proof.
  unfold rooms_for. apply list_filter_iff. intros c.
  apply chat_matches_ids; try done.
  intros u. rewrite !elem_of_cons, elem_of_nil. tauto.
Qed.

(** The stores of the service depend on the room tables only through the
    ids and events of the chats and the participant rows. *)
Lemma store_wf_ext s s' :
  chat_id <$> chats s' = chat_id <$> chats s ->
  chatParticipants s' = chatParticipants s ->
  store_wf s -> store_wf s'.
Proof.
  intros Hids Hps [Hnd Hfk Htwo]. split.
  - by rewrite Hids.
  - by rewrite Hids, Hps.
  - rewrite Hids. unfold participants_of in *. by rewrite Hps.
Qed.

Lemma touch_chat_ids chatId now (cs : list Chat) :
  chat_id <$> (touch_chat chatId now <$> cs) = chat_id <$> cs.
Proof.
  rewrite <- list_fmap_compose. apply list_fmap_ext. intros _ c _. simpl.
  unfold touch_chat. by case_decide.
Qed.

Lemma rooms_for_length_ext s s' e a b (f : Chat -> Chat) :
  chats s' = f <$> chats s ->
  chatParticipants s' = chatParticipants s ->
  (forall c, chat_id (f c) = chat_id c /\ chat_eventId (f c) = chat_eventId c) ->
  length (rooms_for s' e a b) = length (rooms_for s e a b).
Proof.
  intros Hcs Hps Hf. unfold rooms_for. rewrite Hcs.
  rewrite (filter_fmap_stable _ f).
  - rewrite length_fmap. f_equal. apply list_filter_iff. intros c.
    symmetry. apply chat_matches_ids; done.
  - intros c. destruct (Hf c) as [Hid Hev]. unfold chat_matches, participants_of.
    by rewrite Hid, Hev.
Qed.

Lemma chat_findFirst_rooms_for pick s e a b :
  chat_findFirst pick s e [a; b] =
  rooms_for s e a b !! (pick `mod` length (rooms_for s e a b))%nat.
Proof. reflexivity. Qed.

Lemma rooms_for_two_party s e a b c :
  store_wf s -> c ∈ rooms_for s e a b ->
  length (participants_of s (chat_id c)) = 2%nat.
Proof.
  intros [_ _ Htwo] Hin. apply list_elem_of_filter in Hin as [_ Hin].
  rewrite Forall_fmap, Forall_forall in Htwo. by apply Htwo.
Qed.

Lemma existing_room_nil pick s e a b :
  rooms_for s e a b = [] -> existing_room pick s e a b = None.
Proof.
  intros Hrooms. unfold existing_room.
  by rewrite chat_findFirst_rooms_for, Hrooms.
Qed.

Lemma existing_room_None pick s e a b :
  store_wf s -> existing_room pick s e a b = None -> rooms_for s e a b = [].
Proof.
  intros Hwf. unfold existing_room. rewrite chat_findFirst_rooms_for.
  destruct (rooms_for s e a b) as [|c0 l] eqn:Hrooms; [done|].
  destruct ((c0 :: l) !! (pick `mod` length (c0 :: l))%nat) as [c|] eqn:Hc.
  - apply list_elem_of_lookup_2 in Hc. rewrite <- Hrooms in Hc.
    by rewrite decide_True by by eapply rooms_for_two_party.
  - intros _. apply lookup_ge_None in Hc.
    pose proof (Nat.mod_upper_bound pick (length (c0 :: l))) as Hlt.
    simpl in *. lia.
Qed.

Lemma existing_room_single pick s e a b c :
  store_wf s -> rooms_for s e a b = [c] ->
  existing_room pick s e a b = Some (chat_view s false c).
Proof.
  intros Hwf Hrooms. unfold existing_room.
  rewrite chat_findFirst_rooms_for, Hrooms.
  change (length [c]) with 1%nat. rewrite Nat.mod_1_r. simpl.
  rewrite decide_True; [done|].
  apply (rooms_for_two_party s e a b); [done|]. rewrite Hrooms. left.
Qed.

Lemma existing_room_Some pick s e a b v :
  existing_room pick s e a b = Some v ->
  exists c, c ∈ rooms_for s e a b /\ v = chat_view s false c.
Proof.
  unfold existing_room. rewrite chat_findFirst_rooms_for.
  destruct (rooms_for s e a b !! _) as [c|] eqn:Hc; [|done].
  case_decide; [|done]. intros [= <-]. exists c. split; [|done].
  by eapply list_elem_of_lookup_2.
Qed.

Lemma participants_of_with_room_old s env e a b chatId :
  chatId ≠ env_newId env ->
  participants_of (with_room s env e a b) chatId = participants_of s chatId.
Proof.
  intros Hne. unfold participants_of, with_room. simpl.
  rewrite filter_app, !filter_cons, filter_nil. simpl.
  rewrite !decide_False by done. by rewrite app_nil_r.
Qed.

Lemma participants_of_with_room_new s env e a b :
  store_wf s -> env_newId env ∉ (chat_id <$> chats s) ->
  participants_of (with_room s env e a b) (env_newId env) =
    [mkChatParticipant a (env_newId env) (env_now env) true;
     mkChatParticipant b (env_newId env) (env_now env) true].
Proof.
  intros [_ Hfk _] Hfresh. unfold participants_of, with_room. simpl.
  rewrite filter_app, !filter_cons, filter_nil. simpl.
  rewrite !decide_True by done.
  replace (filter (fun cp => cp_chatId cp = env_newId env) (chatParticipants s))
    with (@nil ChatParticipant); [done|].
  symmetry. apply head_None, head_filter_None. intros Hex.
  apply Exists_exists in Hex as (cp & Hin & Hid).
  rewrite Forall_forall in Hfk. apply Hfresh. rewrite <- Hid. by apply Hfk.
Qed.

Lemma with_room_wf s env e a b :
  store_wf s -> env_newId env ∉ (chat_id <$> chats s) ->
  store_wf (with_room s env e a b).
Proof.
  intros Hwf Hfresh. pose proof Hwf as [Hnd Hfk Htwo]. split.
  - simpl. rewrite fmap_app. apply NoDup_app. split; [done|]. split.
    + intros x Hx Hin. apply list_elem_of_singleton in Hin. simpl in Hin.
      congruence.
    + apply NoDup_singleton.
  - simpl. rewrite fmap_app. apply Forall_app. split.
    + eapply Forall_impl; [exact Hfk|]. intros cp Hcp. simpl in *.
      apply elem_of_app. by left.
    + repeat constructor; simpl; apply elem_of_app; right; left.
  - change (chats (with_room s env e a b))
      with (chats s ++ [mkChat (env_newId env) e (env_now env) (env_now env)]).
    rewrite fmap_app. apply Forall_app. split.
    + rewrite Forall_forall in Htwo |- *. intros chatId Hin.
      rewrite participants_of_with_room_old; [by apply Htwo|].
      intros ->. done.
    + constructor; [|constructor]. simpl.
      by rewrite participants_of_with_room_new.
Qed.

Lemma rooms_for_with_room s env e a b e' a' b' :
  store_wf s -> env_newId env ∉ (chat_id <$> chats s) ->
  rooms_for (with_room s env e a b) e' a' b' =
  rooms_for s e' a' b' ++
  (if decide (e = e' /\ a ∈ [a'; b'] /\ b ∈ [a'; b'])
   then [mkChat (env_newId env) e (env_now env) (env_now env)] else []).
Proof.
  intros Hwf Hfresh. unfold rooms_for.
  change (chats (with_room s env e a b))
    with (chats s ++ [mkChat (env_newId env) e (env_now env) (env_now env)]).
  rewrite filter_app. f_equal.
  - apply filter_iff_in. intros c Hin. unfold chat_matches.
    rewrite participants_of_with_room_old; [done|].
    intros Heq. apply Hfresh. rewrite <- Heq. by apply list_elem_of_fmap_2.
  - rewrite filter_cons, filter_nil.
    assert (chat_matches (with_room s env e a b) e' [a'; b']
              (mkChat (env_newId env) e (env_now env) (env_now env)) <->
            e = e' /\ a ∈ [a'; b'] /\ b ∈ [a'; b']) as Hiff.
    { unfold chat_matches. simpl.
      rewrite participants_of_with_room_new by done.
      rewrite !Forall_cons, Forall_nil. simpl. tauto. }
    destruct (decide (e = e' /\ a ∈ [a'; b'] /\ b ∈ [a'; b'])) as [Hm|Hm].
    + by rewrite decide_True by by apply Hiff.
    + by rewrite decide_False by by rewrite Hiff.
Qed.

Lemma run_call_invariant env c s :
  store_wf s -> pair_unique s ->
  store_wf (run_call env c s) /\ pair_unique (run_call env c s).
Proof.
  intros Hwf Huniq.
  destruct c as [e a b|c u page limit|c a b content image|mid u]; simpl.
  - destruct (getOrCreateChat_cases env e a b s)
      as [(r & -> & _)|(_ & _ & Hnone & Hfresh & Hab & _ & ->)]; [done|].
    simpl. fold (with_room s env e a b). split; [by apply with_room_wf|].
    intros e' a' b' Hne'. rewrite rooms_for_with_room by done.
    rewrite length_app. case_decide as Hm; simpl; [|specialize (Huniq e' a' b' Hne'); lia].
    destruct Hm as (<- & Ha & Hb).
    assert (rooms_for s e a' b' = rooms_for s e a b) as ->.
    { unfold rooms_for. apply list_filter_iff. intros ch.
      apply chat_matches_ids; try done.
      intros u. rewrite !elem_of_cons, elem_of_nil in Ha, Hb |- *.
      destruct Ha as [Ha|[Ha|[]]], Hb as [Hb|[Hb|[]]]; subst;
        rewrite ?elem_of_cons, ?elem_of_nil; first [tauto | congruence]. }
    rewrite (existing_room_None _ _ _ _ _ Hwf Hnone). simpl. lia.
  - destruct (getChatMessages_cases env c u page limit s)
      as [[e ->]|(_ & _ & _ & ->)]; [done|]. simpl. split.
    + by apply (store_wf_ext s).
    + intros e' a' b' Hne'. specialize (Huniq e' a' b' Hne').
      by rewrite (rooms_for_length_ext s _ e' a' b' id)
        by (try done; simpl; by rewrite list_fmap_id).
  - destruct (sendMessage_cases env c a b content image s)
      as [[e ->]|(mv & s' & c0 & -> & _ & _ & _ & _ & _ & _ & Hps & _ & Hcs & _)];
      [done|].
    simpl. split.
    + apply (store_wf_ext s); [|done|done]. by rewrite Hcs, touch_chat_ids.
    + intros e' a' b' Hne'. specialize (Huniq e' a' b' Hne').
      rewrite (rooms_for_length_ext s s' e' a' b' (touch_chat c (env_date env)));
        [done|done|done|].
      intros ch. unfold touch_chat. by case_decide.
  - destruct (markMessageAsRead_cases env mid u s)
      as [[e ->]|(m & _ & _ & ->)]; [done|]. simpl. split.
    + by apply (store_wf_ext s).
    + intros e' a' b' Hne'. specialize (Huniq e' a' b' Hne').
      by rewrite (rooms_for_length_ext s _ e' a' b' id)
        by (try done; simpl; by rewrite list_fmap_id).
Qed.

Lemma validated_ext s s' e a b :
  events s' = events s -> eventParticipants s' = eventParticipants s ->
  is_Some (event_findUnique s e) /\ some_party_known s e a b ->
  is_Some (event_findUnique s' e) /\ some_party_known s' e a b.
Proof.
  intros He Hp.
  unfold some_party_known, is_host, has_participant_row, event_findUnique.
  by rewrite He, Hp.
Qed.

Lemma some_party_known_among s e a b a' b' :
  a ∈ [a'; b'] -> b ∈ [a'; b'] ->
  some_party_known s e a b -> some_party_known s e a' b'.
Proof.
  rewrite !elem_of_cons, !elem_of_nil. unfold some_party_known.
  intros [-> | [-> | []]] [-> | [-> | []]]; tauto.
Qed.

Lemma run_call_rooms_validated env c s :
  store_wf s -> rooms_validated s -> rooms_validated (run_call env c s).
Proof.
  intros Hwf Hval.
  assert (forall s' (f : Chat -> Chat),
            chats s' = f <$> chats s ->
            chatParticipants s' = chatParticipants s ->
            (forall ch, chat_id (f ch) = chat_id ch /\
                        chat_eventId (f ch) = chat_eventId ch) ->
            events s' = events s -> eventParticipants s' = eventParticipants s ->
            rooms_validated s') as Hsame.
  { intros s' f Hcs Hps Hf Hev Hep e' a' b' Hne' Hrooms.
    apply (validated_ext s); [done|done|]. apply Hval; [done|].
    intros Hnil. apply Hrooms.
    pose proof (rooms_for_length_ext s s' e' a' b' f Hcs Hps Hf) as Hlen.
    rewrite Hnil in Hlen. by destruct (rooms_for s' e' a' b'). }
  destruct c as [e a b|c u page limit|c a b content image|mid u]; simpl.
  - destruct (getOrCreateChat_cases env e a b s)
      as [(r & -> & _)|(Hev & Hknown & _ & Hfresh & _ & _ & ->)]; [done|].
    simpl. fold (with_room s env e a b).
    intros e' a' b' Hne' Hrooms. rewrite rooms_for_with_room in Hrooms by done.
    apply (validated_ext s); [done|done|].
    destruct (rooms_for s e' a' b') as [|c0 l] eqn:Hold.
    + case_decide as Hm; [|done]. destruct Hm as (<- & Ha & Hb).
      split; [done|]. by apply (some_party_known_among s e a b).
    + apply Hval; [done|]. by rewrite Hold.
  - destruct (getChatMessages_cases env c u page limit s)
      as [[e ->]|(_ & _ & _ & ->)]; [done|]. simpl.
    apply (Hsame _ id); simpl; rewrite ?list_fmap_id; done.
  - destruct (sendMessage_cases env c a b content image s)
      as [[e ->]|(mv & s' & c0 & -> & _ & _ & _ & _ & Hev & Hep & Hps & _ & Hcs & _)];
      [done|].
    simpl. apply (Hsame _ (touch_chat c (env_date env))); try done.
    intros ch. unfold touch_chat. by case_decide.
  - destruct (markMessageAsRead_cases env mid u s)
      as [[e ->]|(m & _ & _ & ->)]; [done|]. simpl.
    apply (Hsame _ id); simpl; rewrite ?list_fmap_id; done.
Qed.

Lemma reachable_invariant s :
  reachable s -> store_wf s /\ pair_unique s /\ rooms_validated s.
Proof.
  induction 1 as [s Hcs Hps|s env c _ (Hwf & Huniq & Hval)].
  - split; [|split].
    + split; rewrite ?Hcs, ?Hps; simpl; constructor.
    + intros e a b _. unfold rooms_for. rewrite Hcs. simpl. lia.
    + intros e a b _ Hrooms. exfalso. apply Hrooms. unfold rooms_for.
      by rewrite Hcs.
  - destruct (run_call_invariant env c s Hwf Huniq) as [Hwf' Huniq'].
    split; [done|]. split; [done|]. by apply run_call_rooms_validated.
Qed.

Lemma some_party_known_swap s e a b :
  some_party_known s e b a <-> some_party_known s e a b.
Proof. unfold some_party_known. tauto. Qed.

Lemma event_findUnique_elem s e :
  is_Some (event_findUnique s e) -> e ∈ (event_id <$> events s).
Proof.
  intros [ev Hev]. apply head_filter_Some_inv in Hev as [<- Hin].
  by apply list_elem_of_fmap_2.
Qed.

Lemma getOrCreateChat_create_ok env e a b s :
  store_wf s -> a ≠ b -> is_Some (event_findUnique s e) ->
  create_accepted env a b s ->
  getOrCreateChat_create env e a b s =
    (Ok (chat_view (with_room s env e a b) true
                   (mkChat (env_newId env) e (env_now env) (env_now env))),
     with_room s env e a b).
Proof.
  intros [_ Hfk _] Hab Hev (Hw & Hfresh & Ha & Hb).
  unfold getOrCreateChat_create, chat_create. svc_unfold. rewrite Hw.
  rewrite decide_False by done.
  rewrite decide_True.
  2:{ split; [by apply event_findUnique_elem|]. by repeat constructor. }
  rewrite decide_True; [done|]. split.
  - repeat constructor; rewrite ?elem_of_cons, ?elem_of_nil; tauto.
  - eapply Forall_impl; [exact Hfk|]. intros cp Hcp [Hid _]. simpl in Hcp.
    apply Hfresh. by rewrite <- Hid.
Qed.

(** C6, as the service has it.  [s] is a store the service reaches from one
    without rooms by calls that ran one after the other, and [a], [b] are
    two distinct users.  They have at most one room for the event, before
    and after a [getOrCreateChat] for the pair in either argument order; a
    call that succeeds leaves exactly one room for the pair, the one it
    returns; and once the room exists every call succeeds, returns that
    room and leaves the store unchanged.  Two calls that overlap are not
    serialized: when the pair has no room, the event exists and knows one
    of the two, and the store accepts both creations, each of the two calls
    finds no room and then creates one, and the pair is left with two
    rooms. *)
Theorem getOrCreateChat_sequential_idempotent (env : Env) (e a b x y : string)
    (s : Store) :
  reachable s -> a ≠ b ->
  (x = a /\ y = b) \/ (x = b /\ y = a) ->
  (length (rooms_for s e a b) <= 1)%nat /\
  (length (rooms_for (snd (getOrCreateChat env e x y s)) e a b) <= 1)%nat /\
  (forall v, fst (getOrCreateChat env e x y s) = Ok v ->
     rooms_for (snd (getOrCreateChat env e x y s)) e a b = [cv_chat v]) /\
  (forall c, rooms_for s e a b = [c] ->
     getOrCreateChat env e x y s = (Ok (chat_view s false c), s)) /\
  (forall env2 x2 y2,
     (x2 = a /\ y2 = b) \/ (x2 = b /\ y2 = a) ->
     rooms_for s e a b = [] ->
     is_Some (event_findUnique s e) -> some_party_known s e a b ->
     create_accepted env a b s -> create_accepted env2 a b s ->
     env_newId env2 ≠ env_newId env ->
     getOrCreateChat_find env e x y s = (Ok None, s) /\
     getOrCreateChat_find env2 e x2 y2 s = (Ok None, s) /\
     exists v1 s1 v2 s2,
       getOrCreateChat_create env e x y s = (Ok v1, s1) /\
       getOrCreateChat_create env2 e x2 y2 s1 = (Ok v2, s2) /\
       chat_id (cv_chat v1) ≠ chat_id (cv_chat v2) /\
       rooms_for s2 e a b = [cv_chat v1; cv_chat v2]).
Proof.
  intros Hreach Hab Hxy.
  destruct (reachable_invariant s Hreach) as (Hwf & Huniq & Hval).
  destruct (reachable_invariant _ (reachable_step s env (GetOrCreateChat e x y) Hreach))
    as (_ & Huniq' & _). simpl in Huniq'.
  split; [by apply Huniq|]. split; [by apply Huniq'|].
  assert (forall s' : Store, rooms_for s' e x y = rooms_for s' e a b) as Hrooms'
    by (intros s'; destruct Hxy as [[-> ->]|[-> ->]]; [done|apply rooms_for_swap]).
  assert (some_party_known s e x y <-> some_party_known s e a b) as Hknown
    by (destruct Hxy as [[-> ->]|[-> ->]]; [done|apply some_party_known_swap]).
  assert (x ≠ y) as Hxy' by (destruct Hxy as [[-> ->]|[-> ->]]; done).
  assert (forall env', create_accepted env' a b s -> create_accepted env' x y s)
    as Hacc by (intros env'; unfold create_accepted;
                destruct Hxy as [[-> ->]|[-> ->]]; tauto).
  split; [|split].
  - intros v Hv.
    destruct (getOrCreateChat_cases env e x y s)
      as [(r & Hcall & Hex)|(_ & _ & Hnone & Hfresh & _ & _ & Hcall)];
      rewrite Hcall in Hv |- *; simpl in *.
    + destruct (existing_room_Some _ _ _ _ _ _ (Hex v Hv)) as (c & Hin & ->).
      rewrite Hrooms' in Hin. specialize (Huniq e a b Hab). simpl.
      destruct (rooms_for s e a b) as [|c' [|c'' l]]; simpl in *; [|  |lia].
      * by apply elem_of_nil in Hin.
      * by apply list_elem_of_singleton in Hin as ->.
    + injection Hv as <-. simpl. rewrite <- Hrooms'.
      fold (with_room s env e x y). rewrite rooms_for_with_room by done.
      rewrite (existing_room_None _ _ _ _ _ Hwf Hnone). simpl.
      rewrite decide_True; [done|].
      rewrite !elem_of_cons. tauto.
  - intros c Hc.
    destruct (Hval e a b Hab) as [[ev Hev] Hk]; [by rewrite Hc|].
    rewrite getOrCreateChat_eq, Hev.
    rewrite decide_True by by apply Hknown.
    by rewrite (existing_room_single _ s e x y c) by (by rewrite ?Hrooms').
  - intros env2 x2 y2 Hxy2 Hnone Hev Hk Hacc1 Hacc2 Hids.
    assert (forall s' : Store, rooms_for s' e x2 y2 = rooms_for s' e a b) as Hrooms2
      by (intros s'; destruct Hxy2 as [[-> ->]|[-> ->]]; [done|apply rooms_for_swap]).
    assert (some_party_known s e x2 y2) as Hk2
      by (destruct Hxy2 as [[-> ->]|[-> ->]]; [done|by apply some_party_known_swap]).
    assert (x2 ≠ y2) as Hxy2' by (destruct Hxy2 as [[-> ->]|[-> ->]]; done).
    assert (x2 ∈ [a; b] /\ y2 ∈ [a; b]) as [Hx2 Hy2]
      by (rewrite !elem_of_cons; destruct Hxy2 as [[-> ->]|[-> ->]]; tauto).
    assert (x ∈ [a; b] /\ y ∈ [a; b]) as [Hx Hy]
      by (rewrite !elem_of_cons; destruct Hxy as [[-> ->]|[-> ->]]; tauto).
    pose proof Hev as [ev Hev'].
    split; [|split].
    + rewrite getOrCreateChat_find_eq, Hev'.
      rewrite decide_True by by apply Hknown.
      by rewrite existing_room_nil by by rewrite Hrooms'.
    + rewrite getOrCreateChat_find_eq, Hev'. rewrite decide_True by done.
      by rewrite existing_room_nil by by rewrite Hrooms2.
    + destruct (Hacc env Hacc1) as (Hw1 & Hfresh1 & Hu1 & Hu1').
      assert (create_accepted env2 x2 y2 (with_room s env e x y)) as Hacc2'.
      { destruct Hacc2 as (Hw2 & Hfresh2 & Ha2 & Hb2).
        split; [done|]. split.
        - simpl. rewrite fmap_app, elem_of_app. simpl.
          rewrite list_elem_of_singleton. tauto.
        - simpl. destruct Hxy2 as [[-> ->]|[-> ->]]; tauto. }
      do 4 eexists.
      split; [by apply getOrCreateChat_create_ok; [| | |apply Hacc]|].
      split; [apply getOrCreateChat_create_ok;
                [by apply with_room_wf|done|exact Hev|done]|].
      split; [simpl; congruence|]. simpl.
      destruct Hacc2' as (_ & Hfresh2' & _).
      rewrite rooms_for_with_room by (try done; by apply with_room_wf).
      rewrite rooms_for_with_room by done.
      rewrite Hnone, !decide_True by done. done.
Qed.

(** Bob opens the room with Alice, then Alice asks for the room with Bob:
    she gets the room Bob's call created and nothing is written.  Had her
    call looked for the room before Bob's created it, each would have
    created one. *)
Lemma getOrCreateChat_sequential_idempotent_witness :
  let r1 := getOrCreateChat (Scenario.env 1 "c1") "ev1" "bob" "alice" Scenario.s0 in
  let r2 := getOrCreateChat (Scenario.env 2 "c2") "ev1" "alice" "bob" (snd r1) in
  (rooms_for Scenario.s0 "ev1" "alice" "bob" = [] /\
   rooms_for (snd r1) "ev1" "alice" "bob" = [mkChat "c1" "ev1" 1 1] /\
   r2 = (Ok (chat_view (snd r1) false (mkChat "c1" "ev1" 1 1)), snd r1)) /\
  (exists v1 s1 v2 s2,
     getOrCreateChat_create (Scenario.env 1 "c1") "ev1" "bob" "alice" Scenario.s0 =
       (Ok v1, s1) /\
     getOrCreateChat_create (Scenario.env 2 "c2") "ev1" "alice" "bob" s1 =
       (Ok v2, s2) /\
     chat_id (cv_chat v1) ≠ chat_id (cv_chat v2) /\
     rooms_for s2 "ev1" "alice" "bob" = [cv_chat v1; cv_chat v2]).
Proof.
  cbv zeta.
  assert (reachable Scenario.s0) as Hr0 by (by apply reachable_init).
  pose proof (reachable_step Scenario.s0 (Scenario.env 1 "c1")
                (GetOrCreateChat "ev1" "bob" "alice") Hr0) as Hr1.
  change (run_call (Scenario.env 1 "c1") (GetOrCreateChat "ev1" "bob" "alice")
                   Scenario.s0)
    with (snd (getOrCreateChat (Scenario.env 1 "c1") "ev1" "bob" "alice" Scenario.s0))
    in Hr1.
  destruct (getOrCreateChat_sequential_idempotent (Scenario.env 1 "c1") "ev1"
              "alice" "bob" "bob" "alice" Scenario.s0 Hr0)
    as (_ & _ & Hcreated & _ & Hoverlap); [discriminate | by right |].
  destruct (getOrCreateChat_sequential_idempotent (Scenario.env 2 "c2") "ev1"
              "alice" "bob" "alice" "bob" _ Hr1)
    as (_ & _ & _ & Hagain & _); [discriminate | by left |].
  specialize (Hcreated _ eq_refl).
  split.
  - split; [reflexivity|]. split; [exact Hcreated|].
    exact (Hagain (mkChat "c1" "ev1" 1 1) Hcreated).
  - destruct (Hoverlap (Scenario.env 2 "c2") "alice" "bob") as (_ & _ & Hboth);
      [by left | reflexivity | by eexists | decide_true | decide_true
      | decide_true | discriminate |].
    exact Hboth.
Defined.

(** C6, as the specification states it, fails for calls that overlap: Bob's
    call and Alice's call both look for the room before either creates it,
    both find none, both create one, and the pair has two rooms. *)
Lemma getOrCreateChat_concurrent_two_rooms :
  let s0 := Scenario.s0 in
  getOrCreateChat_find (Scenario.env 1 "c1") "ev1" "bob" "alice" s0 = (Ok None, s0) /\
  getOrCreateChat_find (Scenario.env 1 "c2") "ev1" "alice" "bob" s0 = (Ok None, s0) /\
  exists v1 s1 v2 s2,
    getOrCreateChat_create (Scenario.env 1 "c1") "ev1" "bob" "alice" s0 = (Ok v1, s1) /\
    getOrCreateChat_create (Scenario.env 1 "c2") "ev1" "alice" "bob" s1 = (Ok v2, s2) /\
    chat_id (cv_chat v1) ≠ chat_id (cv_chat v2) /\
    rooms_for s2 "ev1" "alice" "bob" = [mkChat "c1" "ev1" 1 1; mkChat "c2" "ev1" 1 1].
Proof.
  cbv zeta. split; [vm_compute; reflexivity|]. split; [vm_compute; reflexivity|].
  do 4 eexists. split; [vm_compute; reflexivity|].
  split; [vm_compute; reflexivity|]. split; [discriminate|].
  vm_compute. reflexivity.
Qed.
